(** * convert_celeba: splitting CelebA by attribute for CycleGAN training

    A shallow embedding of [convert_celeba.py] and the properties of its
    metadata join, validators, splitter, output preparer and end-to-end
    run.

    Conventions of the embedding.
    - A pandas data frame is a list of rows in index order; an absent
      value (NaN) is [None].
    - A Python exception is a value of [error]; fallible pure code
      returns [res], code that touches the file system runs in [io],
      a state-and-error monad over the file system.
    - A Python [dict] whose iteration order matters is an association
      list in insertion order.
    - An [assert] is always checked (the interpreter runs without -O).
    - The command line is already parsed: [main] takes the record that
      [parse_cmdargs] returns. *)

From Stdlib Require Import ZArith List Bool Permutation Lia.
From Stdlib Require Import Strings.String Strings.Ascii.
From Stdlib Require Import Sorting.Sorted.
From stdpp Require Import base gmap strings list fin_maps.

Import ListNotations.
Local Open Scope string_scope.
Local Open Scope Z_scope.

(** ** Constants of the script *)

Definition PARTITIONS : list (string * Z) :=
  [ ("train", 0); ("val", 1); ("test", 2) ].

Definition PART_COL : string := "partition".

(** The aligned CelebA files have the [.png] extension on disk and the
    [.jpg] extension in the metadata files. *)
Definition FILE_EXT : string := ".png".
Definition INDEX_EXT : string := ".jpg".

(** ** Exceptions *)

Inductive error : Type :=
| KeyError (key : string)
| UnknownAttribute (attr : string) (supported : gset string)
    (* ValueError of validate_attr; the message prints the set [attrs] *)
| ColumnsOverlap (col : string)
    (* ValueError of DataFrame.join on a shared column name *)
| ImageCountMismatch (n_images n_specs : nat)
| WrongExtension (image ext : string)
| MissingEntry (image entry_index : string)
| SplitCountMismatch
| OutdirExists (outdir : string)
    (* RuntimeError of main *)
| FileExistsError (path : string)
| FileNotFoundError (path : string)
| NotADirectoryError (path : string)
| IsADirectoryError (path : string)
| SameFileError (src dst : string)
| PoolSizeError (processes : Z)
    (* ValueError of multiprocessing.Pool for fewer than one process *)
| ParserError (path : string).

Inductive res (A : Type) : Type :=
| Ok (a : A)
| Err (e : error).
Arguments Ok {A} a.
Arguments Err {A} e.

Definition res_bind {A B} (m : res A) (k : A -> res B) : res B :=
  match m with
  | Ok a => k a
  | Err e => Err e
  end.

Declare Scope res_scope.
Delimit Scope res_scope with res.
Notation "'let*' x ':=' m 'in' k" := (res_bind m (fun x => k))
  (at level 10, x pattern, m at level 100, k at level 200) : res_scope.

(** ** Data frames *)

Module Frame.

(** A cell of an attribute column: an integer, or NaN. *)
Definition cell : Type := option Z.
Definition NaN : cell := None.

(** A row of the joined metadata table: its index label, its partition
    code and one cell per attribute column. *)
Record Row : Type := mkRow {
  stem : string;
  part : Z;
  attrs : list cell
}.

(** The joined table: the partition column comes first, as
    [df_partition.join(df_attrs)] lays it out.  This is the table of a
    partition list with at least one line.  Of an empty partition file
    pandas makes a frame with no [partition] column at all; this record
    has no such table, and [validate_attr_columns] below reads the
    column names alone to cover it. *)
Record DataFrame : Type := mkFrame {
  attr_columns : list string;
  rows : list Row
}.

Definition columns (df : DataFrame) : list string :=
  PART_COL :: attr_columns df.

Definition index (df : DataFrame) : list string :=
  map stem (rows df).

Definition len (df : DataFrame) : nat := length (rows df).

Definition row_cells (r : Row) : list cell := Some (part r) :: attrs r.

Definition cell_at (i : nat) (r : Row) : cell := nth i (row_cells r) NaN.

Fixpoint col_pos (name : string) (cols : list string) : option nat :=
  match cols with
  | [] => None
  | c :: cols' =>
      if String.eqb c name then Some O
      else option_map S (col_pos name cols')
  end.

(** [df[name]]: the column as a series, [KeyError] when there is none. *)
Definition getitem (df : DataFrame) (name : string) : res (list cell) :=
  match col_pos name (columns df) with
  | Some i => Ok (map (cell_at i) (rows df))
  | None => Err (KeyError name)
  end.

(** Elementwise comparisons of a series with a scalar; every
    comparison with NaN is false. *)
Definition gt0 (c : cell) : bool :=
  match c with Some v => 0 <? v | None => false end.
Definition le0 (c : cell) : bool :=
  match c with Some v => v <=? 0 | None => false end.
Definition eq_scalar (k : Z) (c : cell) : bool :=
  match c with Some v => v =? k | None => false end.

(** [a & b] on two boolean series over the same index. *)
Fixpoint series_and (a b : list bool) : list bool :=
  match a, b with
  | x :: a', y :: b' => (x && y) :: series_and a' b'
  | _, _ => []
  end.

(** [df[mask].index.to_list()]: the labels of the rows the mask keeps. *)
Fixpoint mask_index (mask : list bool) (labels : list string) : list string :=
  match mask, labels with
  | m :: mask', l :: labels' =>
      if m then l :: mask_index mask' labels' else mask_index mask' labels'
  | _, _ => []
  end.

End Frame.
Import Frame.

(** ** The splitter *)

Fixpoint dict_get {V} (d : list (string * V)) (k : string) : option V :=
  match d with
  | [] => None
  | (k', v) :: d' => if String.eqb k' k then Some v else dict_get d' k
  end.

Definition dict_getitem {V} (d : list (string * V)) (k : string) : res V :=
  match dict_get d k with
  | Some v => Ok v
  | None => Err (KeyError k)
  end.

Definition prepare_single_split (specs : DataFrame) (attr partition : string)
  : res (list string * list string) :=
  (let* part_col := getitem specs PART_COL in
   let* code := dict_getitem PARTITIONS partition in
   let part_mask := map (eq_scalar code) part_col in
   let* attr_col := getitem specs attr in
   let mask_a := series_and (map gt0 attr_col) part_mask in
   let mask_b := series_and (map le0 attr_col) part_mask in
   let files_a := mask_index mask_a (index specs) in
   let files_b := mask_index mask_b (index specs) in
   Ok (files_a, files_b))%res.

Definition split_dict : Type := list (string * list string).

Definition prepare_image_split (specs : DataFrame) (attr : string)
    (separate_val : bool) : res split_dict :=
  (let* (train_a, train_b) := prepare_single_split specs attr "train" in
   let* (val_a, val_b) := prepare_single_split specs attr "val" in
   let* (test_a, test_b) := prepare_single_split specs attr "test" in
   if separate_val then
     Ok [ ("trainA", train_a); ("trainB", train_b);
          ("valA", val_a); ("valB", val_b);
          ("testA", test_a); ("testB", test_b) ]
   else
     Ok [ ("trainA", train_a); ("trainB", train_b);
          ("testA", (test_a ++ val_a)%list);
          ("testB", (test_b ++ val_b)%list) ])%res.

Definition bucket_count (d : split_dict) : nat :=
  list_sum (map (fun kv => length (snd kv)) d).

Definition validate_image_split (specs : DataFrame) (d : split_dict)
  : res unit :=
  if Nat.eqb (len specs) (bucket_count d) then Ok tt
  else Err SplitCountMismatch.

(** ** The metadata loader's join *)

(** What [pd.read_csv] makes of [list_eval_partition.txt]: one
    [(label, partition code)] pair per line. *)
Definition PartitionFrame : Type := list (string * Z).

(** What [pd.read_csv] makes of [list_attr_celeba.txt]: the header's
    column names and one labelled vector of cells per line. *)
Record AttrFrame : Type := mkAttrs {
  attr_names : list string;
  attr_rows : list (string * list cell)
}.

Definition label_matches (label : string) (ar : string * list cell) : bool :=
  String.eqb (fst ar) label.

(** The rows [DataFrame.join] (a left join on the index) makes of one
    row of the calling frame: one per matching row of [other], or one
    row of NaN when no label of [other] matches. *)
Definition join_row (other : AttrFrame) (pr : string * Z) : list Row :=
  match List.filter (label_matches (fst pr)) (attr_rows other) with
  | [] => [ mkRow (fst pr) (snd pr)
              (repeat NaN (length (attr_names other))) ]
  | matches => map (fun ar => mkRow (fst pr) (snd pr) (snd ar)) matches
  end.

(** [df_partition.join(df_attrs)]; pandas refuses the join only when
    the two frames share a column name.  The partition frame is taken
    to carry its [partition] column, as it does when the partition list
    has at least one line. *)
Definition join (df_partition : PartitionFrame) (df_attrs : AttrFrame)
  : res DataFrame :=
  if existsb (String.eqb PART_COL) (attr_names df_attrs)
  then Err (ColumnsOverlap PART_COL)
  else Ok (mkFrame (attr_names df_attrs)
                   (flat_map (join_row df_attrs) df_partition)).

(** ** os.path *)

Module Path.

Definition sep : ascii := "/"%char.
Definition extsep : ascii := "."%char.

(** [s.rfind(c)] from position [i] on: the last position of [c], or
    [-1]. *)
Fixpoint rfind_from (c : ascii) (s : string) (i : Z) : Z :=
  match s with
  | EmptyString => -1
  | String a s' =>
      let r := rfind_from c s' (i + 1) in
      if 0 <=? r then r
      else if Ascii.eqb a c then i else -1
  end.

Definition rfind (c : ascii) (s : string) : Z := rfind_from c s 0.

(** [p[:i]] and [p[i:]] for [0 <= i]. *)
Definition slice_to (p : string) (i : Z) : string :=
  substring 0 (Z.to_nat i) p.
Definition slice_from (p : string) (i : Z) : string :=
  substring (Z.to_nat i) (String.length p - Z.to_nat i) p.

(** The loop of [genericpath._splitext] that skips leading dots:
    [n] is [dotIndex - filenameIndex]. *)
Fixpoint splitext_loop (n : nat) (p : string) (filenameIndex dotIndex : Z)
  : string * string :=
  match n with
  | O => (p, EmptyString)
  | S n' =>
      match get (Z.to_nat filenameIndex) p with
      | Some a =>
          if Ascii.eqb a extsep
          then splitext_loop n' p (filenameIndex + 1) dotIndex
          else (slice_to p dotIndex, slice_from p dotIndex)
      | None => (slice_to p dotIndex, slice_from p dotIndex)
      end
  end.

Definition splitext (p : string) : string * string :=
  let sepIndex := rfind sep p in
  let dotIndex := rfind extsep p in
  if sepIndex <? dotIndex then
    let filenameIndex := sepIndex + 1 in
    splitext_loop (Z.to_nat (dotIndex - filenameIndex)) p
                  filenameIndex dotIndex
  else (p, EmptyString).

Definition startswith_sep (s : string) : bool :=
  match s with
  | String a _ => Ascii.eqb a sep
  | EmptyString => false
  end.

Fixpoint endswith_sep (s : string) : bool :=
  match s with
  | EmptyString => false
  | String a EmptyString => Ascii.eqb a sep
  | String _ s' => endswith_sep s'
  end.

(** [posixpath.join(a, b)]. *)
Definition join (a b : string) : string :=
  if startswith_sep b then b
  else if orb (String.eqb a EmptyString) (endswith_sep a)
       then String.append a b
       else String.append a (String sep b).

Definition basename (p : string) : string :=
  slice_from p (rfind sep p + 1).

End Path.

(** ** The validators *)

Definition validate_attr (specs : DataFrame) (attr : string) : res unit :=
  let attrs0 : gset string := list_to_set (columns specs) in
  if decide (PART_COL ∈ attrs0) then
    let attrs := attrs0 ∖ {[ PART_COL ]} in
    if decide (attr ∈ attrs) then Ok tt
    else Err (UnknownAttribute attr attrs)
  else Err (KeyError PART_COL).

(** [validate_attr] reads nothing of the table but [specs.columns];
    this is the same body on the column names, for the columns of any
    frame, with or without [partition]. *)
Definition validate_attr_columns (columns : list string) (attr : string)
  : res unit :=
  let attrs0 : gset string := list_to_set columns in
  if decide (PART_COL ∈ attrs0) then
    let attrs := attrs0 ∖ {[ PART_COL ]} in
    if decide (attr ∈ attrs) then Ok tt
    else Err (UnknownAttribute attr attrs)
  else Err (KeyError PART_COL).

Definition in_index (label : string) (specs : DataFrame) : bool :=
  existsb (String.eqb label) (index specs).

(** The body of the [for image in images] loop. *)
Definition validate_image (specs : DataFrame) (image : string) : res unit :=
  let (base, ext) := Path.splitext image in
  if negb (String.eqb ext FILE_EXT) then Err (WrongExtension image ext)
  else
    let entry_index := String.append base INDEX_EXT in
    if negb (in_index entry_index specs)
    then Err (MissingEntry image entry_index)
    else Ok tt.

Fixpoint validate_each (specs : DataFrame) (images : list string) : res unit :=
  match images with
  | [] => Ok tt
  | image :: images' =>
      (let* _ := validate_image specs image in
       validate_each specs images')%res
  end.

Definition validate_images (images : list string) (specs : DataFrame)
  : res unit :=
  if negb (Nat.eqb (length images) (len specs))
  then Err (ImageCountMismatch (length images) (len specs))
  else validate_each specs images.

(** ** The file system *)

(** The file system is a finite map from path strings to nodes.  It is
    flat: a path is its own key, ancestors of a created directory are
    not tracked, and two spellings of one path are two keys.  A node is
    a directory or a regular file.

    The calls of [Os] below are those of the library on paths whose
    parent directory exists: there [os.makedirs] makes the one
    directory, and [os.mkdir] and [shutil.copy] find the directory they
    write into.  What the library does otherwise is not modelled: for a
    missing parent [os.makedirs] makes every missing ancestor while
    [os.mkdir] and [shutil.copy] raise, and all three raise for an
    empty path or below a regular file.  Statements that depend on it
    ask for an output root that is a plain name ([plain_name]). *)
Inductive node : Type :=
| Dir
| File (data : string).

Abbreviation FS := (gmap string node).

Definition io (A : Type) : Type := FS -> res A * FS.

Definition io_ret {A} (a : A) : io A := fun fs => (Ok a, fs).
Definition io_raise {A} (e : error) : io A := fun fs => (Err e, fs).
Definition io_lift {A} (r : res A) : io A := fun fs => (r, fs).
Definition io_bind {A B} (m : io A) (k : A -> io B) : io B :=
  fun fs =>
    match m fs with
    | (Ok a, fs') => k a fs'
    | (Err e, fs') => (Err e, fs')
    end.

Declare Scope io_scope.
Delimit Scope io_scope with io.
Notation "'let*' x ':=' m 'in' k" := (io_bind m (fun x => k))
  (at level 10, x pattern, m at level 100, k at level 200) : io_scope.

(** [for x in xs: body(x)] *)
Fixpoint io_for {A} (xs : list A) (body : A -> io unit) : io unit :=
  match xs with
  | [] => io_ret tt
  | x :: xs' => (let* _ := body x in io_for xs' body)%io
  end.

Module Os.

(** [os.path.exists] *)
Definition path_exists (path : string) : io bool :=
  fun fs => (Ok (bool_decide (is_Some (fs !! path))), fs).

(** [os.makedirs(path, exist_ok = True)] *)
Definition makedirs_exist_ok (path : string) : io unit :=
  fun fs =>
    match fs !! path with
    | Some Dir => (Ok tt, fs)
    | Some (File _) => (Err (FileExistsError path), fs)
    | None => (Ok tt, <[path := Dir]> fs)
    end.

(** [os.mkdir] *)
Definition mkdir (path : string) : io unit :=
  fun fs =>
    match fs !! path with
    | Some _ => (Err (FileExistsError path), fs)
    | None => (Ok tt, <[path := Dir]> fs)
    end.

Definition dir_prefix (root : string) : string :=
  if Path.endswith_sep root then root else String.append root "/".

Fixpoint strip_prefix (pre s : string) : option string :=
  match pre with
  | EmptyString => Some s
  | String a pre' =>
      match s with
      | String b s' => if Ascii.eqb a b then strip_prefix pre' s' else None
      | EmptyString => None
      end
  end.

(** The name under which [path] is an entry of directory [root]. *)
Definition entry_name (root path : string) : option string :=
  match strip_prefix (dir_prefix root) path with
  | Some name =>
      if orb (String.eqb name EmptyString) (0 <=? Path.rfind Path.sep name)
      then None else Some name
  | None => None
  end.

(** [os.listdir]; the order of the result is that of the map. *)
Definition listdir (root : string) : io (list string) :=
  fun fs =>
    match fs !! root with
    | Some Dir =>
        (Ok (omap (entry_name root) (map fst (map_to_list fs))), fs)
    | Some (File _) => (Err (NotADirectoryError root), fs)
    | None => (Err (FileNotFoundError root), fs)
    end.

(** [shutil.copy(src, dst)] *)
Definition copy (src dst : string) : io unit :=
  fun fs =>
    let dst' :=
      match fs !! dst with
      | Some Dir => Path.join dst (Path.basename src)
      | _ => dst
      end in
    match fs !! src with
    | Some (File data) =>
        if String.eqb src dst' then (Err (SameFileError src dst'), fs)
        else
          match fs !! dst' with
          | Some Dir => (Err (IsADirectoryError dst'), fs)
          | _ => (Ok tt, <[dst' := File data]> fs)
          end
    | Some Dir => (Err (IsADirectoryError src), fs)
    | None => (Err (FileNotFoundError src), fs)
    end.

End Os.

(** [sorted] on a list of [str]: code-point order. *)
Fixpoint insert_sorted (x : string) (l : list string) : list string :=
  match l with
  | [] => [x]
  | y :: l' => if String.leb x y then x :: l else y :: insert_sorted x l'
  end.

Definition sorted (l : list string) : list string :=
  fold_right insert_sorted [] l.

(** ** Output preparer and copy fan-out *)

Definition prepare_outdir (outdir : string) (d : split_dict) : io unit :=
  (let* _ := Os.makedirs_exist_ok outdir in
   io_for (map fst d) (fun subdir =>
     let path := Path.join outdir subdir in
     Os.mkdir path))%io.

Record CopyWorker : Type := mkCopyWorker {
  _root_src : string;
  _root_dst : string
}.

(** [CopyWorker.__call__] *)
Definition CopyWorker_call (self : CopyWorker) (file_index : string)
  : io unit :=
  let (base, _ext) := Path.splitext file_index in
  let fname := String.append base FILE_EXT in
  let path_src := Path.join (_root_src self) fname in
  let path_dst := Path.join (_root_dst self) fname in
  Os.copy path_src path_dst.

(** The pool runs the worker over [files].  The model takes the files
    in list order and stops at the first copy that fails.  The real
    pool hands the files to its workers as they come free, so when a
    copy fails, copies of later files may still be made before the
    error reaches [split_images]; the state given here after a failed
    copy holds the copies before it and leaves those out.  What is left
    when every copy succeeds does not depend on the order.  The
    progress bar has no effect on the file system. *)
Definition pool_imap (workers : Z) (worker : string -> io unit)
    (files : list string) : io unit :=
  if workers <? 1 then io_raise (PoolSizeError workers)
  else io_for files worker.

Definition split_images (path_celeba outdir : string) (d : split_dict)
    (workers : Z) : io unit :=
  io_for d (fun '(subdir, files) =>
    let curr_outdir := Path.join outdir subdir in
    let worker := mkCopyWorker path_celeba curr_outdir in
    pool_imap workers (CopyWorker_call worker) files).

(** ** The end-to-end run *)

Record CmdArgs : Type := mkArgs {
  path_attr : string;
  path_part : string;
  attr : string;
  separate_val : bool;
  workers : Z;
  path_celeba : string;
  outdir : string
}.

Section Run.

(** The two [pd.read_csv] calls: what the parser makes of the file at
    a path of the file system, or the exception it raises.  Reading
    changes nothing on disk. *)
Variable load_celeba_attrs : FS -> string -> res AttrFrame.
Variable load_celeba_partition : FS -> string -> res PartitionFrame.

Definition load_celeba_specs (path_attr path_part : string) : io DataFrame :=
  fun fs =>
    ((let* df_partition := load_celeba_partition fs path_part in
      let* df_attrs := load_celeba_attrs fs path_attr in
      join df_partition df_attrs)%res, fs).

Definition collect_celeba_images (root : string) : io (list string) :=
  (let* names := Os.listdir root in io_ret (sorted names))%io.

Definition main (cmdargs : CmdArgs) : io unit :=
  (let* outdir_exists := Os.path_exists (outdir cmdargs) in
   if (outdir_exists : bool) then io_raise (OutdirExists (outdir cmdargs))
   else
     let* specs :=
       load_celeba_specs (path_attr cmdargs) (path_part cmdargs) in
     let* _ := io_lift (validate_attr specs (attr cmdargs)) in
     let* images := collect_celeba_images (path_celeba cmdargs) in
     let* _ := io_lift (validate_images images specs) in
     let* split := io_lift (prepare_image_split specs (attr cmdargs)
                              (separate_val cmdargs)) in
     let* _ := io_lift (validate_image_split specs split) in
     let* _ := prepare_outdir (outdir cmdargs) split in
     split_images (path_celeba cmdargs) (outdir cmdargs) split
                  (workers cmdargs))%io.

End Run.

(** ** Row-wise reading of the vectorised operations

    The statements below speak about single rows; these definitions
    name what a row holds in a column and which rows a class keeps. *)

(** [specs.loc[row, name]], NaN when there is no such column. *)
Definition loc (specs : DataFrame) (r : Row) (name : string) : cell :=
  match col_pos name (columns specs) with
  | Some i => cell_at i r
  | None => NaN
  end.

Definition is_class_a (specs : DataFrame) (attr : string) (code : Z)
    (r : Row) : bool :=
  gt0 (loc specs r attr) && (part r =? code).

Definition is_class_b (specs : DataFrame) (attr : string) (code : Z)
    (r : Row) : bool :=
  le0 (loc specs r attr) && (part r =? code).

Definition class_a (specs : DataFrame) (attr : string) (code : Z)
  : list string :=
  map stem (List.filter (is_class_a specs attr code) (rows specs)).

Definition class_b (specs : DataFrame) (attr : string) (code : Z)
  : list string :=
  map stem (List.filter (is_class_b specs attr code) (rows specs)).

(** A row some bucket can take: its partition code is one of
    [PARTITIONS] and its attribute value is a number. *)
Definition known_partition (r : Row) : bool :=
  (part r =? 0) || (part r =? 1) || (part r =? 2).

Definition has_value (specs : DataFrame) (attr : string) (r : Row) : bool :=
  match loc specs r attr with Some _ => true | None => false end.

Definition splittable (specs : DataFrame) (attr : string) (r : Row) : bool :=
  known_partition r && has_value specs attr r.

(** A row of one partition that either class takes. *)
Definition in_partition (specs : DataFrame) (attr : string) (code : Z)
    (r : Row) : bool :=
  is_class_a specs attr code r || is_class_b specs attr code r.

(** All the labels a split holds, bucket after bucket. *)
Definition all_buckets (d : split_dict) : list string :=
  concat (map snd d).

(** The errors of the checks that [main] runs before it writes. *)
Definition is_check_error (e : error) : Prop :=
  match e with
  | OutdirExists _ | UnknownAttribute _ _ | ImageCountMismatch _ _
  | WrongExtension _ _ | MissingEntry _ _ | SplitCountMismatch => True
  | _ => False
  end.

(** What [validate_images] asks of one file name. *)
Definition image_ok (specs : DataFrame) (image : string) : Prop :=
  snd (Path.splitext image) = FILE_EXT /\
  In (String.append (fst (Path.splitext image)) INDEX_EXT) (index specs).

(** An action that removes no path: whatever exists before it exists
    after it. *)
Definition preserves_paths {A} (m : io A) : Prop :=
  forall (fs fs' : FS) (r : res A) (p : string),
    m fs = (r, fs') -> is_Some (fs !! p) -> is_Some (fs' !! p).

(** An action whose exceptions are none of the checks' errors. *)
Definition raises_no_check_error {A} (m : io A) : Prop :=
  forall (fs fs' : FS) (e : error),
    m fs = (Err e, fs') -> ~ is_check_error e.

(** Every check of [main] passes on the file system [fs] and the
    splitter returns [split]. *)
Definition checks_pass
    (load_celeba_attrs : FS -> string -> res AttrFrame)
    (load_celeba_partition : FS -> string -> res PartitionFrame)
    (cmdargs : CmdArgs) (fs : FS) (split : split_dict) : Prop :=
  fs !! outdir cmdargs = None
  /\ exists specs images,
       load_celeba_specs load_celeba_attrs load_celeba_partition
         (path_attr cmdargs) (path_part cmdargs) fs = (Ok specs, fs)
       /\ validate_attr specs (attr cmdargs) = Ok tt
       /\ collect_celeba_images (path_celeba cmdargs) fs = (Ok images, fs)
       /\ validate_images images specs = Ok tt
       /\ prepare_image_split specs (attr cmdargs) (separate_val cmdargs)
          = Ok split
       /\ validate_image_split specs split = Ok tt.

(** What [main] does once the checks are behind it. *)
Definition write_output (cmdargs : CmdArgs) (split : split_dict) : io unit :=
  (let* _ := prepare_outdir (outdir cmdargs) split in
   split_images (path_celeba cmdargs) (outdir cmdargs) split
                (workers cmdargs))%io.

(** ** Sample data *)

Module Sample.

(** Three train rows holding 1, -1 and 0 in the column [Male]. *)
Definition three_train : DataFrame :=
  mkFrame ["Male"]
    [ mkRow "000001.jpg" 0 [Some 1];
      mkRow "000002.jpg" 0 [Some (-1)];
      mkRow "000003.jpg" 0 [Some 0] ].

(** One row of each partition. *)
Definition one_each : DataFrame :=
  mkFrame ["Male"]
    [ mkRow "000001.jpg" 0 [Some 1];
      mkRow "000002.jpg" 1 [Some (-1)];
      mkRow "000003.jpg" 2 [Some 1] ].

(** A row whose partition code is none of [PARTITIONS]. *)
Definition stray_code : DataFrame :=
  mkFrame ["Male"] [ mkRow "000001.jpg" 3 [Some 1] ].

(** A partition list with a label the attribute list lacks. *)
Definition part_two : PartitionFrame :=
  [ ("000001.jpg", 0); ("000002.jpg", 0) ].
Definition attrs_one : AttrFrame :=
  mkAttrs ["Male"] [ ("000001.jpg", [Some 1]) ].

(** The table their join makes: the second row holds NaN. *)
Definition joined_nan : DataFrame :=
  mkFrame ["Male"]
    [ mkRow "000001.jpg" 0 [Some 1]; mkRow "000002.jpg" 0 [NaN] ].

(** An attribute list with a label the partition list lacks. *)
Definition part_one : PartitionFrame := [ ("000001.jpg", 0) ].
Definition attrs_two : AttrFrame :=
  mkAttrs ["Male"]
    [ ("000001.jpg", [Some 1]); ("000002.jpg", [Some (-1)]) ].

(** An output root that is already there, empty; the same with one
    bucket directory in it; and a split of no file at all. *)
Definition fs_root : FS := {[ "out" := Dir ]}.
Definition fs_root_trainB : FS :=
  <[ "out/trainB" := Dir ]> {[ "out" := Dir ]}.
Definition empty_split : split_dict :=
  [ ("trainA", []); ("trainB", []); ("testA", []); ("testB", []) ].

(** A source directory of three images, and what the parser returns
    for the two metadata files. *)
Definition fs_celeba : FS :=
  <[ "img/000003.png" := File "image 3" ]>
    (<[ "img/000002.png" := File "image 2" ]>
       (<[ "img/000001.png" := File "image 1" ]> {[ "img" := Dir ]})).
Definition read_attrs (fs : FS) (path : string) : res AttrFrame :=
  Ok (mkAttrs ["Male"]
        [ ("000001.jpg", [Some 1]); ("000002.jpg", [Some (-1)]);
          ("000003.jpg", [Some 1]) ]).
Definition read_partition (fs : FS) (path : string) : res PartitionFrame :=
  Ok [ ("000001.jpg", 0); ("000002.jpg", 1); ("000003.jpg", 2) ].
Definition args (attr : string) : CmdArgs :=
  mkArgs "list_attr_celeba.txt" "list_eval_partition.txt" attr false 1
         "img" "out".

End Sample.

(** ** Further notions *)

(** The characters the loop of [splitext] skips are all dots. *)
Fixpoint only_dots (n : nat) (p : string) (k : Z) : bool :=
  match n with
  | O => true
  | S n' =>
      match get (Z.to_nat k) p with
      | Some a => Ascii.eqb a Path.extsep && only_dots n' p (k + 1)
      | None => false
      end
  end.

Definition occurs (c : ascii) (s : string) : Prop :=
  In c (list_ascii_of_string s).

(** A single path component that can name an entry of the working
    directory: not empty, without separator and without NUL, neither
    [.] nor [..], and of 255 bytes at most. *)
Definition plain_name (s : string) : Prop :=
  s <> "" /\ ~ occurs Path.sep s /\ ~ occurs Ascii.zero s
  /\ s <> "." /\ s <> ".." /\ (String.length s <= 255)%nat.

(** The index label [validate_images] looks up for an image. *)
Definition entry_index (image : string) : string :=
  fst (Path.splitext image) +:+ INDEX_EXT.

(** The file name [CopyWorker] derives from an index label. *)
Definition image_name (file_index : string) : string :=
  fst (Path.splitext file_index) +:+ FILE_EXT.


(** The order of [sorted] on [str]. *)
Definition str_le (a b : string) : Prop := String.leb a b = true.

(** An action that leaves every directory a directory. *)
Definition keeps_dirs {A} (m : io A) : Prop :=
  forall (fs fs' : FS) (r : res A) (p : string),
    m fs = (r, fs') -> fs !! p = Some Dir -> fs' !! p = Some Dir.

(** The directories [prepare_outdir] makes under the root. *)
Definition bucket_paths (outdir : string) (d : split_dict) : list string :=
  map (Path.join outdir) (map fst d).

(** What [posixpath.join] puts before a relative second argument. *)
Definition join_prefix (a : string) : string :=
  if orb (String.eqb a EmptyString) (Path.endswith_sep a) then a
  else a +:+ "/".

(** The bucket names [prepare_image_split] can return. *)
Definition BUCKETS : list string :=
  [ "trainA"; "trainB"; "valA"; "valB"; "testA"; "testB" ].

(** The copies [split_images] makes, in order: bucket name and label. *)
Definition copy_items (d : split_dict) : list (string * string) :=
  flat_map (fun b => map (pair (fst b)) (snd b)) d.

(** Where the copy of a label is read and written. *)
Definition copy_src (path_celeba file_index : string) : string :=
  Path.join path_celeba (image_name file_index).

Definition copy_dst (outdir subdir file_index : string) : string :=
  Path.join (Path.join outdir subdir) (image_name file_index).

(** While the copies run: paths that are no destination are as the
    [mkdir] loop left them (in [fs1]), and a destination is free or
    holds the image it had to get from [fs]. *)
Definition copying (root out : string) (d : split_dict) (fs fs1 gs : FS)
  : Prop :=
  (forall q,
      (forall k f, In (k, f) (copy_items d) -> q <> copy_dst out k f) ->
      gs !! q = fs1 !! q)
  /\ (forall k f, In (k, f) (copy_items d) ->
        gs !! copy_dst out k f = None
        \/ gs !! copy_dst out k f = fs !! copy_src root f).

(** * Properties *)

(** ** Columns and masks *)

Section FrameFacts.

Lemma col_pos_In name cols :
  In name cols -> exists i, col_pos name cols = Some i.
Proof.
  induction cols as [|c cols IH]; simpl; [tauto|].
  intros [->|Hin].
  - rewrite String.eqb_refl. eauto.
  - destruct (String.eqb c name); [eauto|].
    destruct (IH Hin) as [i ->]. simpl. eauto.
Qed.

Lemma col_pos_None name cols :
  col_pos name cols = None -> ~ In name cols.
Proof.
  intros Hnone Hin. apply col_pos_In in Hin as [i Hi]. congruence.
Qed.

Lemma getitem_PART_COL specs :
  getitem specs PART_COL = Ok (map (fun r => Some (part r)) (rows specs)).
Proof. reflexivity. Qed.

Lemma getitem_In specs name :
  In name (columns specs) ->
  getitem specs name = Ok (map (fun r => loc specs r name) (rows specs)).
Proof.
  intros Hin. unfold getitem, loc.
  destruct (col_pos_In _ _ Hin) as [i ->]. reflexivity.
Qed.

Lemma getitem_not_In specs name :
  ~ In name (columns specs) -> getitem specs name = Err (KeyError name).
Proof.
  intros Hnot. unfold getitem.
  destruct (col_pos name (columns specs)) eqn:E; [|reflexivity].
  exfalso. apply Hnot. clear Hnot. revert n E.
  induction (columns specs) as [|c cols IH]; simpl; [discriminate|].
  intros n. destruct (String.eqb_spec c name) as [->|_]; [auto|].
  destruct (col_pos name cols); simpl; [|discriminate].
  intros _. right. eapply IH. reflexivity.
Qed.

(** The masked index is the filter of the rows by the two tests. *)
Lemma mask_index_rowwise (test : cell -> bool) (value : Row -> cell)
    (code : Z) (rs : list Row) :
  mask_index
    (series_and (map test (map value rs))
                (map (eq_scalar code) (map (fun r => Some (part r)) rs)))
    (map stem rs)
  = map stem (List.filter (fun r => test (value r) && (part r =? code)) rs).
Proof.
  induction rs as [|r rs IH]; simpl; [reflexivity|].
  destruct (test (value r) && (part r =? code)); simpl; now rewrite IH.
Qed.

Lemma prepare_single_split_rowwise specs attr partition code :
  In attr (columns specs) ->
  dict_get PARTITIONS partition = Some code ->
  prepare_single_split specs attr partition
  = Ok (class_a specs attr code, class_b specs attr code).
Proof.
  intros Hattr Hcode. unfold prepare_single_split.
  rewrite getitem_PART_COL. simpl res_bind.
  unfold dict_getitem. rewrite Hcode. simpl res_bind.
  rewrite (getitem_In _ _ Hattr). simpl res_bind.
  unfold index, class_a, class_b.
  now rewrite !mask_index_rowwise.
Qed.

Lemma prepare_image_split_rowwise specs attr separate_val :
  In attr (columns specs) ->
  prepare_image_split specs attr separate_val
  = Ok (if separate_val then
          [ ("trainA", class_a specs attr 0); ("trainB", class_b specs attr 0);
            ("valA", class_a specs attr 1); ("valB", class_b specs attr 1);
            ("testA", class_a specs attr 2); ("testB", class_b specs attr 2) ]
        else
          [ ("trainA", class_a specs attr 0); ("trainB", class_b specs attr 0);
            ("testA", (class_a specs attr 2 ++ class_a specs attr 1)%list);
            ("testB", (class_b specs attr 2 ++ class_b specs attr 1)%list) ]).
Proof.
  intros Hattr. unfold prepare_image_split.
  rewrite (prepare_single_split_rowwise specs attr "train" 0 Hattr eq_refl).
  rewrite (prepare_single_split_rowwise specs attr "val" 1 Hattr eq_refl).
  rewrite (prepare_single_split_rowwise specs attr "test" 2 Hattr eq_refl).
  simpl res_bind. now destruct separate_val.
Qed.

End FrameFacts.

(** ** The attribute validator *)

Section ValidateAttr.

Lemma supported_elem (specs : DataFrame) (name : string) :
  name ∈ (list_to_set (columns specs) ∖ {[ PART_COL ]} : gset string)
  <-> In name (columns specs) /\ name <> PART_COL.
Proof.
  rewrite elem_of_difference, elem_of_list_to_set, list_elem_of_In.
  rewrite elem_of_singleton. tauto.
Qed.

Lemma PART_COL_in_columns (specs : DataFrame) :
  PART_COL ∈ (list_to_set (columns specs) : gset string).
Proof.
  rewrite elem_of_list_to_set, list_elem_of_In. now left.
Qed.

Lemma validate_attr_Ok specs attr :
  validate_attr specs attr = Ok tt
  <-> In attr (columns specs) /\ attr <> PART_COL.
Proof.
  unfold validate_attr.
  destruct (decide _) as [_|Hno]; [|destruct Hno; apply PART_COL_in_columns].
  destruct (decide _) as [Hin|Hout].
  - apply supported_elem in Hin. tauto.
  - rewrite supported_elem in Hout. split; [discriminate|tauto].
Qed.

Lemma validate_attr_valid_In specs attr :
  validate_attr specs attr = Ok tt -> In attr (columns specs).
Proof. intros H. now apply validate_attr_Ok in H. Qed.

End ValidateAttr.

Section ValidateAttrColumns.

Lemma supported_elem_columns (cols : list string) (name : string) :
  name ∈ (list_to_set cols ∖ {[ PART_COL ]} : gset string)
  <-> In name cols /\ name <> PART_COL.
Proof.
  rewrite elem_of_difference, elem_of_list_to_set, list_elem_of_In.
  rewrite elem_of_singleton. tauto.
Qed.

Lemma PART_COL_elem_columns (cols : list string) :
  PART_COL ∈ (list_to_set cols : gset string) <-> In PART_COL cols.
Proof. now rewrite elem_of_list_to_set, list_elem_of_In. Qed.

(** On the columns of a joined table it is [validate_attr]. *)
Lemma validate_attr_columns_frame specs attr :
  validate_attr specs attr = validate_attr_columns (columns specs) attr.
Proof. reflexivity. Qed.

End ValidateAttrColumns.

(** C8, as stated, fails: of an empty partition file pandas makes a
    frame without the [partition] column, so the joined table has the
    attribute columns only; on them [attrs.remove(PART_COL)] raises
    [KeyError], for a name that is a column and for one that is not
    alike. *)
Lemma validate_attr_without_partition :
  In "Male" ["Male"]
  /\ validate_attr_columns ["Male"] "Male" = Err (KeyError "partition")
  /\ (~ In "Young" ["Male"])
  /\ validate_attr_columns ["Male"] "Young" = Err (KeyError "partition").
Proof.
  split; [now left|]. split; [vm_compute; reflexivity|].
  split; [|vm_compute; reflexivity].
  intros [E|[]]. discriminate E.
Qed.

(** C8, amended. On the columns of a table that has the [partition]
    column, [validate_attr] raises its invalid-argument error exactly
    when the name is not a column other than [partition]; it raises
    nothing else; the error carries the set of all column names with
    [partition] removed.  On columns without [partition] it raises
    [KeyError] of [partition] whatever the name.  Every table of
    [DataFrame] has the [partition] column, and on it [validate_attr]
    is this function of its columns. *)
Theorem validate_attr_columns_spec (cols : list string) (name : string) :
  let supported : gset string := list_to_set cols ∖ {[ PART_COL ]} in
  (In PART_COL cols ->
   (validate_attr_columns cols name = Err (UnknownAttribute name supported)
    <-> ~ (In name cols /\ name <> PART_COL))
   /\ (forall e, validate_attr_columns cols name = Err e ->
                 e = UnknownAttribute name supported))
  /\ (forall c, c ∈ supported <-> In c cols /\ c <> PART_COL)
  /\ (PART_COL ∉ supported)
  /\ (~ In PART_COL cols ->
      validate_attr_columns cols name = Err (KeyError PART_COL))
  /\ (forall specs,
        In PART_COL (columns specs)
        /\ validate_attr specs name
           = validate_attr_columns (columns specs) name).
Proof.
  intros supported. split; [|split; [|split; [|split]]].
  - intros Hpart. apply PART_COL_elem_columns in Hpart.
    unfold validate_attr_columns. fold supported.
    destruct (decide _) as [_|Hno]; [|contradiction].
    destruct (decide (name ∈ supported)) as [Hin|Hout].
    + apply supported_elem_columns in Hin. split.
      * split; [discriminate|tauto].
      * intros e. discriminate.
    + unfold supported in Hout. rewrite supported_elem_columns in Hout.
      split.
      * split; [intros _; exact Hout|reflexivity].
      * intros e [= <-]. reflexivity.
  - intros c. apply supported_elem_columns.
  - subst supported. rewrite supported_elem_columns. tauto.
  - intros Hnot. unfold validate_attr_columns.
    destruct (decide _) as [Hin|_]; [|reflexivity].
    apply PART_COL_elem_columns in Hin. contradiction.
  - intros specs. split; [now left|reflexivity].
Qed.

(** ** The splitter *)

(** C1. For a column [attr] of the table and a partition name of
    [PARTITIONS], [prepare_single_split] returns the labels of the rows
    with [attr > 0] in that partition, then those of the rows with
    [attr <= 0] in that partition, both in table order; three train rows
    holding 1, -1 and 0 give the first label to class A and the other
    two, the 0 included, to class B. *)
Theorem prepare_single_split_spec (specs : DataFrame)
    (attr partition : string) :
  In attr (columns specs) ->
  In partition ["train"; "val"; "test"] ->
  (exists code,
      dict_get PARTITIONS partition = Some code /\
      prepare_single_split specs attr partition
      = Ok (map stem (List.filter
                        (fun r => gt0 (loc specs r attr) && (part r =? code))
                        (rows specs)),
            map stem (List.filter
                        (fun r => le0 (loc specs r attr) && (part r =? code))
                        (rows specs))))
  /\ (forall v : Z, gt0 (Some v) = true <-> 0 < v)
  /\ (forall v : Z, le0 (Some v) = true <-> v <= 0)
  /\ (forall row1 row2 row3 : string,
        attr <> PART_COL ->
        let table := mkFrame [attr]
                       [ mkRow row1 0 [Some 1]; mkRow row2 0 [Some (-1)];
                         mkRow row3 0 [Some 0] ] in
        prepare_single_split table attr "train" = Ok ([row1], [row2; row3])
        /\ forall separate_val, exists d,
             prepare_image_split table attr separate_val = Ok d
             /\ dict_get d "trainA" = Some [row1]
             /\ dict_get d "trainB" = Some [row2; row3]).
Proof.
  intros Hattr Hpart. split; [|split; [|split]].
  - assert (exists code, dict_get PARTITIONS partition = Some code)
      as [code Hc].
    { simpl in Hpart.
      destruct Hpart as [<-|[<-|[<-|[]]]]; simpl; eauto. }
    exists code. split; [exact Hc|].
    now rewrite (prepare_single_split_rowwise _ _ _ _ Hattr Hc).
  - intros v. simpl. apply Z.ltb_lt.
  - intros v. simpl. apply Z.leb_le.
  - intros row1 row2 row3 Hne table.
    assert (In attr (columns table)) as Hin by (right; now left).
    assert (String.eqb PART_COL attr = false) as Hneq.
    { apply String.eqb_neq. intros E. now apply Hne. }
    split.
    + rewrite (prepare_single_split_rowwise table attr "train" 0 Hin eq_refl).
      unfold class_a, class_b, is_class_a, is_class_b, loc, columns.
      cbn [table rows attr_columns col_pos].
      rewrite Hneq, String.eqb_refl. reflexivity.
    + intros separate_val.
      rewrite (prepare_image_split_rowwise table attr separate_val Hin).
      unfold class_a, class_b, is_class_a, is_class_b, loc, columns.
      cbn [table rows attr_columns col_pos].
      rewrite Hneq, String.eqb_refl. simpl.
      destruct separate_val; eexists; (split; [reflexivity|]); now simpl.
Qed.

Lemma validate_attr_columns_spec_witness :
  In PART_COL ["partition"; "Male"]
  /\ validate_attr_columns ["partition"; "Male"] "Mal"
     = Err (UnknownAttribute "Mal"
              (list_to_set ["partition"; "Male"] ∖ {[ PART_COL ]}))
  /\ validate_attr_columns ["Male"] "Male" = Err (KeyError PART_COL).
Proof.
  assert (In PART_COL ["partition"; "Male"]) as Hpart by now left.
  split; [exact Hpart|].
  destruct (validate_attr_columns_spec ["partition"; "Male"] "Mal")
    as (Hwith & _).
  destruct (validate_attr_columns_spec ["Male"] "Male")
    as (_ & _ & _ & Hwithout & _).
  split.
  - apply (proj1 (Hwith Hpart)). intros [Hin _]. simpl in Hin.
    destruct Hin as [E|[E|[]]]; discriminate E.
  - apply Hwithout. simpl. intros [E|[]]. discriminate E.
Defined.

Lemma prepare_single_split_spec_witness :
  In "Male" (columns Sample.three_train)
  /\ In "train" ["train"; "val"; "test"]
  /\ prepare_single_split Sample.three_train "Male" "train"
     = Ok (["000001.jpg"], ["000002.jpg"; "000003.jpg"]).
Proof.
  assert (In "Male" (columns Sample.three_train)) as Hattr
    by (right; now left).
  assert (In "train" ["train"; "val"; "test"]) as Hpart by now left.
  split; [exact Hattr|]. split; [exact Hpart|].
  destruct (prepare_single_split_spec Sample.three_train "Male" "train"
              Hattr Hpart) as [[code [Hcode Hsplit]] _].
  injection Hcode as <-. rewrite Hsplit. reflexivity.
Defined.

(** ** Lists of buckets *)

Section ListFacts.

Context {A : Type}.

Lemma filter_disjoint_union (p q : A -> bool) (l : list A) :
  (forall x, p x && q x = false) ->
  Permutation (List.filter p l ++ List.filter q l)
              (List.filter (fun x => p x || q x) l).
Proof.
  intros Hdisj. induction l as [|x l IH]; simpl; [constructor|].
  specialize (Hdisj x).
  destruct (p x), (q x); simpl in *; try discriminate.
  - now constructor.
  - rewrite <- Permutation_middle. now constructor.
  - exact IH.
Qed.

Lemma filter_all (p : A -> bool) (l : list A) :
  (forall x, In x l -> p x = true) -> List.filter p l = l.
Proof.
  induction l as [|x l IH]; simpl; intros Hall; [reflexivity|].
  rewrite (Hall x) by now left. f_equal. apply IH. intros y Hy.
  apply Hall. now right.
Qed.

Lemma filter_length_lt (p : A -> bool) (l : list A) (x : A) :
  In x l -> p x = false ->
  (length (List.filter p l) < length l)%nat.
Proof.
  induction l as [|y l IH]; simpl; [tauto|].
  intros [->|Hin] Hpx.
  - rewrite Hpx. pose proof (List.filter_length_le p l). lia.
  - specialize (IH Hin Hpx). destruct (p y); simpl; lia.
Qed.

Lemma filter_length_all (p : A -> bool) (l : list A) :
  length (List.filter p l) = length l ->
  forall x, In x l -> p x = true.
Proof.
  intros Hlen x Hin. destruct (p x) eqn:E; [reflexivity|].
  pose proof (filter_length_lt p l x Hin E). lia.
Qed.

(** Two different entries of a duplicate-free concatenation share no
    element. *)
Lemma NoDup_concat_disjoint (ls : list (list A)) :
  List.NoDup (concat ls) ->
  forall i j b1 b2 x,
    i <> j -> nth_error ls i = Some b1 -> nth_error ls j = Some b2 ->
    In x b1 -> In x b2 -> False.
Proof.
  induction ls as [|b ls IH]; intros Hnd i j b1 b2 x Hij H1 H2 Hx1 Hx2.
  - destruct i; discriminate.
  - simpl in Hnd. apply NoDup_ListNoDup, NoDup_app in Hnd.
    destruct Hnd as (_ & Hsep & Hrest). apply NoDup_ListNoDup in Hrest.
    assert (forall k c, nth_error ls k = Some c -> In x c ->
                        In x (concat ls)) as Hin.
    { intros k c Hk Hc. apply in_concat. exists c. split; [|exact Hc].
      eapply nth_error_In; eauto. }
    destruct i as [|i], j as [|j]; simpl in H1, H2.
    + congruence.
    + injection H1 as <-.
      apply (Hsep x); [now apply list_elem_of_In|].
      apply list_elem_of_In. eauto.
    + injection H2 as <-.
      apply (Hsep x); [now apply list_elem_of_In|].
      apply list_elem_of_In. eauto.
    + eapply (IH Hrest i j); eauto.
Qed.

End ListFacts.

Lemma bucket_count_length (d : split_dict) :
  bucket_count d = length (all_buckets d).
Proof.
  unfold bucket_count, all_buckets.
  rewrite List.length_concat, List.map_map. reflexivity.
Qed.

(** ** Which rows the six classes take *)

Section SplitFacts.

Variable specs : DataFrame.
Variable attr : string.

Local Ltac class_cases r :=
  unfold is_class_a, is_class_b, splittable, known_partition, has_value,
         gt0, le0;
  destruct (loc specs r attr) as [v|];
  repeat match goal with
         | |- context [?x =? ?y] => destruct (Z.eqb_spec x y)
         | |- context [?x <? ?y] => destruct (Z.ltb_spec x y)
         | |- context [?x <=? ?y] => destruct (Z.leb_spec x y)
         end;
  simpl; try reflexivity; try lia.

Lemma class_a_b_disjoint code r :
  is_class_a specs attr code r && is_class_b specs attr code r = false.
Proof. class_cases r. Qed.

Lemma in_partition_disjoint c1 c2 r :
  c1 <> c2 ->
  in_partition specs attr c1 r && in_partition specs attr c2 r = false.
Proof. intros Hne. unfold in_partition. class_cases r. Qed.

Lemma in_partition_splittable r :
  in_partition specs attr 0 r
  || (in_partition specs attr 1 r || in_partition specs attr 2 r)
  = splittable specs attr r.
Proof. unfold in_partition. class_cases r. Qed.

Lemma classes_of_partition code (rs : list Row) :
  Permutation (List.filter (is_class_a specs attr code) rs
               ++ List.filter (is_class_b specs attr code) rs)
              (List.filter (in_partition specs attr code) rs).
Proof. apply filter_disjoint_union. intros r. apply class_a_b_disjoint. Qed.

Lemma six_classes (rs : list Row) :
  Permutation
    ((List.filter (is_class_a specs attr 0) rs
      ++ List.filter (is_class_b specs attr 0) rs)
     ++ (List.filter (is_class_a specs attr 1) rs
         ++ List.filter (is_class_b specs attr 1) rs)
     ++ (List.filter (is_class_a specs attr 2) rs
         ++ List.filter (is_class_b specs attr 2) rs))
    (List.filter (splittable specs attr) rs).
Proof.
  rewrite !classes_of_partition.
  rewrite (filter_disjoint_union (in_partition specs attr 1)
             (in_partition specs attr 2))
    by (intros r; now apply in_partition_disjoint).
  rewrite filter_disjoint_union.
  - erewrite List.filter_ext; [reflexivity|].
    intros r. apply in_partition_splittable.
  - intros r. rewrite andb_orb_distrib_r.
    rewrite !in_partition_disjoint by discriminate. reflexivity.
Qed.

Lemma splittable_true r :
  splittable specs attr r = true
  <-> In (part r) [0; 1; 2] /\ loc specs r attr <> NaN.
Proof.
  unfold splittable, known_partition, has_value, NaN. simpl In.
  rewrite andb_true_iff, !orb_true_iff, !Z.eqb_eq.
  destruct (loc specs r attr) as [v|]; split.
  - intros [Hk _]. split; [lia|discriminate].
  - intros [Hin _]. split; [lia|reflexivity].
  - intros [_ Hv]. discriminate Hv.
  - intros [_ Hv]. now destruct Hv.
Qed.

(** Whatever the mode, the buckets hold the labels of the splittable
    rows, each once. *)
Lemma buckets_are_splittable_rows separate_val d :
  prepare_image_split specs attr separate_val = Ok d ->
  Permutation (all_buckets d)
              (map stem (List.filter (splittable specs attr) (rows specs))).
Proof.
  intros Hsplit.
  assert (In attr (columns specs)) as Hattr.
  { destruct (in_dec string_dec attr (columns specs)) as [Hin|Hout];
      [exact Hin|].
    unfold prepare_image_split, prepare_single_split in Hsplit.
    rewrite getitem_PART_COL in Hsplit. simpl in Hsplit.
    now rewrite (getitem_not_In _ _ Hout) in Hsplit. }
  rewrite (prepare_image_split_rowwise _ _ _ Hattr) in Hsplit.
  injection Hsplit as <-.
  rewrite <- (six_classes (rows specs)).
  rewrite !List.map_app. fold (class_a specs attr 0) (class_a specs attr 1)
    (class_a specs attr 2) (class_b specs attr 0) (class_b specs attr 1)
    (class_b specs attr 2).
  unfold all_buckets. destruct separate_val; simpl; rewrite ?app_nil_r.
  - rewrite <- !app_assoc. reflexivity.
  - solve_Permutation.
Qed.

Lemma bucket_count_splittable separate_val d :
  prepare_image_split specs attr separate_val = Ok d ->
  bucket_count d
  = length (List.filter (splittable specs attr) (rows specs)).
Proof.
  intros Hsplit. rewrite bucket_count_length.
  rewrite (Permutation_length
             (buckets_are_splittable_rows _ _ Hsplit)).
  apply List.length_map.
Qed.

End SplitFacts.

(** C5. In merged mode the bucket [testA] is the class-A list of the
    test partition followed by the class-A list of the val partition:
    its first [length test_a] items are the test items, in order, and
    the rest are the val items, in order; likewise [testB]. *)
Theorem merged_test_then_val (specs : DataFrame) (attr : string) :
  validate_attr specs attr = Ok tt ->
  exists test_a test_b val_a val_b d,
    prepare_single_split specs attr "test" = Ok (test_a, test_b)
    /\ prepare_single_split specs attr "val" = Ok (val_a, val_b)
    /\ prepare_image_split specs attr false = Ok d
    /\ dict_get d "testA" = Some (test_a ++ val_a)%list
    /\ dict_get d "testB" = Some (test_b ++ val_b)%list
    /\ (forall testA, dict_get d "testA" = Some testA ->
          firstn (length test_a) testA = test_a
          /\ skipn (length test_a) testA = val_a)
    /\ (forall testB, dict_get d "testB" = Some testB ->
          firstn (length test_b) testB = test_b
          /\ skipn (length test_b) testB = val_b).
Proof.
  intros Hvalid. apply validate_attr_valid_In in Hvalid.
  exists (class_a specs attr 2), (class_b specs attr 2),
         (class_a specs attr 1), (class_b specs attr 1).
  eexists. split; [|split; [|split; [|split; [|split; [|split]]]]].
  - now apply prepare_single_split_rowwise.
  - now apply prepare_single_split_rowwise.
  - now apply prepare_image_split_rowwise.
  - reflexivity.
  - reflexivity.
  - intros testA [= <-]. split.
    + apply take_app_length.
    + apply drop_app_length.
  - intros testB [= <-]. split.
    + apply take_app_length.
    + apply drop_app_length.
Qed.

Lemma merged_test_then_val_witness :
  validate_attr Sample.one_each "Male" = Ok tt
  /\ exists d,
       prepare_image_split Sample.one_each "Male" false = Ok d
       /\ dict_get d "testA" = Some ["000003.jpg"]
       /\ dict_get d "testB" = Some ["000002.jpg"].
Proof.
  assert (validate_attr Sample.one_each "Male" = Ok tt) as Hvalid
    by (vm_compute; reflexivity).
  split; [exact Hvalid|].
  destruct (merged_test_then_val Sample.one_each "Male" Hvalid)
    as (ta & tb & va & vb & d & Ht & Hv & Hd & HA & HB & _).
  exists d. split; [exact Hd|].
  vm_compute in Ht. injection Ht as <- <-.
  vm_compute in Hv. injection Hv as <- <-.
  split; [exact HA|exact HB].
Defined.

(** C6. For a valid attribute the merged mode yields the four bucket
    names [trainA], [trainB], [testA], [testB], in this order, and the
    separate mode the six names with [valA] and [valB], which then hold
    the two classes of the val partition while [testA] and [testB] hold
    those of the test partition alone. *)
Theorem bucket_names (specs : DataFrame) (attr : string) :
  validate_attr specs attr = Ok tt ->
  (exists d,
      prepare_image_split specs attr false = Ok d
      /\ map fst d = ["trainA"; "trainB"; "testA"; "testB"])
  /\ (exists d val_a val_b test_a test_b,
         prepare_image_split specs attr true = Ok d
         /\ map fst d = ["trainA"; "trainB"; "valA"; "valB"; "testA"; "testB"]
         /\ prepare_single_split specs attr "val" = Ok (val_a, val_b)
         /\ prepare_single_split specs attr "test" = Ok (test_a, test_b)
         /\ dict_get d "valA" = Some val_a
         /\ dict_get d "valB" = Some val_b
         /\ dict_get d "testA" = Some test_a
         /\ dict_get d "testB" = Some test_b).
Proof.
  intros Hvalid. apply validate_attr_valid_In in Hvalid. split.
  - eexists. split; [now apply prepare_image_split_rowwise|reflexivity].
  - exists
      [ ("trainA", class_a specs attr 0); ("trainB", class_b specs attr 0);
        ("valA", class_a specs attr 1); ("valB", class_b specs attr 1);
        ("testA", class_a specs attr 2); ("testB", class_b specs attr 2) ],
      (class_a specs attr 1), (class_b specs attr 1),
      (class_a specs attr 2), (class_b specs attr 2).
    split; [now apply prepare_image_split_rowwise|].
    split; [reflexivity|].
    split; [now apply prepare_single_split_rowwise|].
    split; [now apply prepare_single_split_rowwise|].
    repeat split; reflexivity.
Qed.

Lemma bucket_names_witness :
  validate_attr Sample.one_each "Male" = Ok tt
  /\ (exists d, prepare_image_split Sample.one_each "Male" false = Ok d
                /\ length d = 4%nat)
  /\ (exists d, prepare_image_split Sample.one_each "Male" true = Ok d
                /\ length d = 6%nat).
Proof.
  assert (validate_attr Sample.one_each "Male" = Ok tt) as Hvalid
    by (vm_compute; reflexivity).
  split; [exact Hvalid|].
  destruct (bucket_names Sample.one_each "Male" Hvalid)
    as [(d4 & H4 & N4) (d6 & ? & ? & ? & ? & H6 & N6 & _)].
  split.
  - exists d4. split; [exact H4|].
    rewrite <- (List.length_map fst), N4. reflexivity.
  - exists d6. split; [exact H6|].
    rewrite <- (List.length_map fst), N6. reflexivity.
Defined.

(** ** Do the buckets cover the table? *)

(** C2, as stated, fails: a row whose partition code is 3 passes
    [validate_attr] and lands in no bucket, in either mode, so the
    bucket lengths sum to 0 for a one-row table; and so does a row
    that holds NaN in the attribute column, whatever its code. *)
Lemma split_drops_stray_code :
  validate_attr Sample.stray_code "Male" = Ok tt
  /\ prepare_image_split Sample.stray_code "Male" false
     = Ok [ ("trainA", []); ("trainB", []); ("testA", []); ("testB", []) ]
  /\ prepare_image_split Sample.stray_code "Male" true
     = Ok [ ("trainA", []); ("trainB", []); ("valA", []); ("valB", []);
            ("testA", []); ("testB", []) ]
  /\ len Sample.stray_code = 1%nat
  /\ bucket_count
       [ ("trainA", []); ("trainB", []); ("testA", []); ("testB", []) ]
     <> len Sample.stray_code
  /\ bucket_count
       [ ("trainA", []); ("trainB", []); ("valA", []); ("valB", []);
         ("testA", []); ("testB", []) ]
     <> len Sample.stray_code
  /\ validate_attr Sample.joined_nan "Male" = Ok tt
  /\ prepare_image_split Sample.joined_nan "Male" false
     = Ok [ ("trainA", ["000001.jpg"]); ("trainB", []);
            ("testA", []); ("testB", []) ]
  /\ bucket_count [ ("trainA", ["000001.jpg"]); ("trainB", []);
                    ("testA", []); ("testB", []) ]
     <> len Sample.joined_nan.
Proof.
  split; [vm_compute; reflexivity|].
  repeat split; try reflexivity; vm_compute; try reflexivity; discriminate.
Qed.

(** C2, amended. When every partition code is 0, 1 or 2 and no row
    lacks a value in the attribute column, then in either mode the
    bucket lengths sum to the number of rows, the buckets together are
    a rearrangement of the index (no row left out, none taken twice),
    the count check passes, and, the index labels being distinct, no
    label occurs twice nor in two buckets. *)
Theorem split_covers_table (specs : DataFrame) (attr : string)
    (separate_val : bool) :
  validate_attr specs attr = Ok tt ->
  (forall r, In r (rows specs) ->
             In (part r) [0; 1; 2] /\ loc specs r attr <> NaN) ->
  exists d,
    prepare_image_split specs attr separate_val = Ok d
    /\ bucket_count d = len specs
    /\ Permutation (all_buckets d) (index specs)
    /\ validate_image_split specs d = Ok tt
    /\ (List.NoDup (index specs) ->
        List.NoDup (all_buckets d)
        /\ forall i j b1 b2 x,
             i <> j ->
             nth_error (map snd d) i = Some b1 ->
             nth_error (map snd d) j = Some b2 ->
             In x b1 -> ~ In x b2).
Proof.
  intros Hvalid Hrows. apply validate_attr_valid_In in Hvalid.
  destruct (prepare_image_split specs attr separate_val) as [d|e] eqn:Hsplit;
    [|now rewrite (prepare_image_split_rowwise _ _ _ Hvalid) in Hsplit].
  exists d.
  assert (List.filter (splittable specs attr) (rows specs) = rows specs)
    as Hall.
  { apply filter_all. intros r Hr. apply splittable_true. now apply Hrows. }
  assert (Permutation (all_buckets d) (index specs)) as Hperm.
  { rewrite (buckets_are_splittable_rows _ _ _ _ Hsplit), Hall.
    reflexivity. }
  assert (bucket_count d = len specs) as Hcount.
  { rewrite (bucket_count_splittable _ _ _ _ Hsplit), Hall. reflexivity. }
  split; [reflexivity|]. split; [exact Hcount|]. split; [exact Hperm|].
  split.
  - unfold validate_image_split. rewrite Hcount, Nat.eqb_refl. reflexivity.
  - intros Hnd.
    assert (List.NoDup (all_buckets d)) as Hnd'.
    { eapply Permutation_NoDup; [symmetry; exact Hperm|exact Hnd]. }
    split; [exact Hnd'|].
    intros i j b1 b2 x Hij H1 H2 Hx1 Hx2.
    exact (NoDup_concat_disjoint _ Hnd' i j b1 b2 x Hij H1 H2 Hx1 Hx2).
Qed.

Lemma split_covers_table_witness :
  validate_attr Sample.one_each "Male" = Ok tt
  /\ (forall r, In r (rows Sample.one_each) ->
        In (part r) [0; 1; 2] /\ loc Sample.one_each r "Male" <> NaN)
  /\ exists d,
       prepare_image_split Sample.one_each "Male" false = Ok d
       /\ bucket_count d = 3%nat.
Proof.
  assert (validate_attr Sample.one_each "Male" = Ok tt) as Hvalid
    by (vm_compute; reflexivity).
  assert (forall r, In r (rows Sample.one_each) ->
            In (part r) [0; 1; 2] /\ loc Sample.one_each r "Male" <> NaN)
    as Hrows.
  { intros r [<-|[<-|[<-|[]]]]; (split; [simpl; tauto|discriminate]). }
  split; [exact Hvalid|]. split; [exact Hrows|].
  destruct (split_covers_table Sample.one_each "Male" false Hvalid Hrows)
    as (d & Hd & Hn & _).
  exists d. split; [exact Hd|exact Hn].
Defined.

(** C10, as stated, fails in its last clause: the join of a partition
    list with an attribute list that lacks one of its labels has every
    partition code in 0, 1, 2, yet the row of the missing label holds
    NaN, is neither [> 0] nor [<= 0], and lands in no bucket. *)
Lemma nan_row_uncovered :
  join Sample.part_two Sample.attrs_one = Ok Sample.joined_nan
  /\ (forall r, In r (rows Sample.joined_nan) -> In (part r) [0; 1; 2])
  /\ prepare_image_split Sample.joined_nan "Male" false
     = Ok [ ("trainA", ["000001.jpg"]); ("trainB", []);
            ("testA", []); ("testB", []) ]
  /\ bucket_count [ ("trainA", ["000001.jpg"]); ("trainB", []);
                    ("testA", []); ("testB", []) ] = 1%nat
  /\ len Sample.joined_nan = 2%nat
  /\ validate_image_split Sample.joined_nan
       [ ("trainA", ["000001.jpg"]); ("trainB", []);
         ("testA", []); ("testB", []) ]
     = Err SplitCountMismatch.
Proof.
  split; [reflexivity|]. split.
  - intros r [<-|[<-|[]]]; simpl; tauto.
  - repeat split; reflexivity.
Qed.

(** C10, amended. A row whose partition code is not 0, 1 or 2 matches
    no mask of any partition name; the buckets hold exactly the rows
    with such a code and a value in the attribute column; so a table
    with a row of another code has bucket lengths summing to less than
    its row count and [validate_image_split] raises; and the buckets
    cover every row exactly when all codes are 0, 1 or 2 and no row
    lacks a value in the attribute column. *)
Theorem stray_rows_are_dropped (specs : DataFrame) (attr : string)
    (separate_val : bool) (d : split_dict) :
  prepare_image_split specs attr separate_val = Ok d ->
  (forall r partition code,
      ~ In (part r) [0; 1; 2] ->
      dict_get PARTITIONS partition = Some code ->
      is_class_a specs attr code r = false
      /\ is_class_b specs attr code r = false)
  /\ Permutation (all_buckets d)
       (map stem (List.filter (splittable specs attr) (rows specs)))
  /\ ((exists r, In r (rows specs) /\ ~ In (part r) [0; 1; 2]) ->
      (bucket_count d < len specs)%nat
      /\ validate_image_split specs d = Err SplitCountMismatch)
  /\ (bucket_count d = len specs
      <-> forall r, In r (rows specs) ->
            In (part r) [0; 1; 2] /\ loc specs r attr <> NaN).
Proof.
  intros Hsplit.
  pose proof (bucket_count_splittable _ _ _ _ Hsplit) as Hcount.
  split; [|split; [|split]].
  - intros r partition code Hstray Hcode.
    assert ((part r =? code) = false) as Hne.
    { apply Z.eqb_neq. intros E. apply Hstray. rewrite E. simpl in *.
      repeat match type of Hcode with
             | (if ?b then _ else _) = _ => destruct b
             end; try discriminate; injection Hcode as <-; tauto. }
    unfold is_class_a, is_class_b. rewrite Hne, !andb_false_r. tauto.
  - exact (buckets_are_splittable_rows _ _ _ _ Hsplit).
  - intros (r & Hin & Hstray).
    assert (bucket_count d < len specs)%nat as Hlt.
    { rewrite Hcount. apply (filter_length_lt _ _ r Hin).
      destruct (splittable specs attr r) eqn:E; [|reflexivity].
      apply splittable_true in E. tauto. }
    split; [exact Hlt|].
    unfold validate_image_split.
    destruct (Nat.eqb_spec (len specs) (bucket_count d)); [lia|reflexivity].
  - rewrite Hcount. split.
    + intros Hlen r Hin. apply splittable_true.
      exact (filter_length_all _ _ Hlen r Hin).
    + intros Hrows. rewrite filter_all; [reflexivity|].
      intros r Hr. apply splittable_true. now apply Hrows.
Qed.

Lemma stray_rows_are_dropped_witness :
  prepare_image_split Sample.stray_code "Male" false
  = Ok [ ("trainA", []); ("trainB", []); ("testA", []); ("testB", []) ]
  /\ (exists r, In r (rows Sample.stray_code) /\ ~ In (part r) [0; 1; 2])
  /\ validate_image_split Sample.stray_code
       [ ("trainA", []); ("trainB", []); ("testA", []); ("testB", []) ]
     = Err SplitCountMismatch.
Proof.
  assert (prepare_image_split Sample.stray_code "Male" false
          = Ok [ ("trainA", []); ("trainB", []); ("testA", []);
                 ("testB", []) ]) as Hsplit by reflexivity.
  assert (exists r, In r (rows Sample.stray_code)
                    /\ ~ In (part r) [0; 1; 2]) as Hstray.
  { exists (mkRow "000001.jpg" 3 [Some 1]). split; [now left|].
    simpl. intros [E|[E|[E|[]]]]; discriminate E. }
  split; [exact Hsplit|]. split; [exact Hstray|].
  destruct (stray_rows_are_dropped _ _ _ _ Hsplit) as (_ & _ & Hraise & _).
  exact (proj2 (Hraise Hstray)).
Defined.

(** ** The image validator *)

Section ValidateImages.

Variable specs : DataFrame.

Lemma in_index_In label :
  in_index label specs = true <-> In label (index specs).
Proof.
  unfold in_index. rewrite existsb_exists. split.
  - intros (l & Hin & E). apply String.eqb_eq in E. now subst.
  - intros Hin. exists label. split; [exact Hin|apply String.eqb_refl].
Qed.

Lemma validate_image_wrong_ext image :
  snd (Path.splitext image) <> FILE_EXT ->
  validate_image specs image
  = Err (WrongExtension image (snd (Path.splitext image))).
Proof.
  intros Hext. unfold validate_image.
  destruct (Path.splitext image) as [base ext]. simpl in *.
  apply String.eqb_neq in Hext. now rewrite Hext.
Qed.

Lemma validate_image_missing image :
  snd (Path.splitext image) = FILE_EXT ->
  ~ In (String.append (fst (Path.splitext image)) INDEX_EXT) (index specs) ->
  validate_image specs image
  = Err (MissingEntry image
           (String.append (fst (Path.splitext image)) INDEX_EXT)).
Proof.
  intros Hext Hmiss. unfold validate_image.
  destruct (Path.splitext image) as [base ext]. simpl in *.
  subst ext. rewrite String.eqb_refl. simpl.
  destruct (in_index _ specs) eqn:E; [|reflexivity].
  apply in_index_In in E. contradiction.
Qed.

Lemma validate_image_Ok image :
  validate_image specs image = Ok tt <-> image_ok specs image.
Proof.
  unfold image_ok. split.
  - intros Hok.
    destruct (string_dec (snd (Path.splitext image)) FILE_EXT) as [E|N];
      [|now rewrite (validate_image_wrong_ext _ N) in Hok].
    split; [exact E|].
    destruct (in_dec string_dec
                (String.append (fst (Path.splitext image)) INDEX_EXT)
                (index specs)) as [Hin|Hout]; [exact Hin|].
    now rewrite (validate_image_missing _ E Hout) in Hok.
  - intros [Hext Hin]. unfold validate_image.
    destruct (Path.splitext image) as [base ext]. simpl in *.
    subst ext. rewrite String.eqb_refl. simpl.
    apply in_index_In in Hin. now rewrite Hin.
Qed.

Lemma validate_each_Ok images :
  validate_each specs images = Ok tt <-> Forall (image_ok specs) images.
Proof.
  induction images as [|image images IH]; simpl.
  - split; [constructor|reflexivity].
  - destruct (validate_image specs image) as [[]|e] eqn:E; simpl.
    + apply validate_image_Ok in E. rewrite IH. split.
      * intros Hall. now constructor.
      * intros Hall. now inversion Hall.
    + split; [discriminate|]. intros Hall. inversion Hall as [|? ? Hok _].
      apply validate_image_Ok in Hok. congruence.
Qed.

(** The loop stops at the first file name that fails a check. *)
Lemma validate_each_first_failure pre image post :
  Forall (image_ok specs) pre ->
  validate_each specs (pre ++ image :: post)
  = (let* _ := validate_image specs image in validate_each specs post)%res.
Proof.
  induction pre as [|x pre IH]; intros Hpre; [reflexivity|].
  inversion Hpre as [|? ? Hx Hrest]. subst. simpl.
  apply validate_image_Ok in Hx. rewrite Hx. simpl. now apply IH.
Qed.

End ValidateImages.

(** C7. [validate_images] raises the count-mismatch error when the two
    lengths differ.  Otherwise it takes the file names in order and, at
    the first one that fails a check, raises the wrong-extension error
    if the extension is not [.png], else the missing-entry error if the
    base name followed by [.jpg] is not a label of the index.  It
    succeeds exactly when the lengths agree and every file name passes
    both checks. *)
Theorem validate_images_spec (images : list string) (specs : DataFrame) :
  (length images <> len specs ->
   validate_images images specs
   = Err (ImageCountMismatch (length images) (len specs)))
  /\ (length images = len specs ->
      forall pre image post,
        images = (pre ++ image :: post)%list ->
        Forall (image_ok specs) pre ->
        (snd (Path.splitext image) <> FILE_EXT ->
         validate_images images specs
         = Err (WrongExtension image (snd (Path.splitext image))))
        /\ (snd (Path.splitext image) = FILE_EXT ->
            ~ In (String.append (fst (Path.splitext image)) INDEX_EXT)
                 (index specs) ->
            validate_images images specs
            = Err (MissingEntry image
                     (String.append (fst (Path.splitext image)) INDEX_EXT))))
  /\ (validate_images images specs = Ok tt
      <-> length images = len specs /\ Forall (image_ok specs) images).
Proof.
  unfold validate_images. split; [|split].
  - intros Hne. apply Nat.eqb_neq in Hne. now rewrite Hne.
  - intros Hlen pre image post -> Hpre. rewrite Hlen, Nat.eqb_refl. simpl.
    rewrite (validate_each_first_failure _ _ _ _ Hpre). split.
    + intros Hext. now rewrite (validate_image_wrong_ext _ _ Hext).
    + intros Hext Hmiss. now rewrite (validate_image_missing _ _ Hext Hmiss).
  - destruct (Nat.eqb_spec (length images) (len specs)) as [Hlen|Hne]; simpl.
    + rewrite validate_each_Ok. tauto.
    + split; [discriminate|tauto].
Qed.

Lemma validate_images_spec_witness :
  validate_images ["000001.png"; "000002.png"] Sample.three_train
  = Err (ImageCountMismatch 2 3)
  /\ validate_images ["000001.png"; "000002.jpg"; "000003.png"]
       Sample.three_train
     = Err (WrongExtension "000002.jpg" ".jpg")
  /\ validate_images ["000001.png"; "000002.png"; "000004.png"]
       Sample.three_train
     = Err (MissingEntry "000004.png" "000004.jpg").
Proof.
  split; [|split].
  - apply (validate_images_spec ["000001.png"; "000002.png"]
             Sample.three_train).
    simpl. discriminate.
  - destruct (validate_images_spec
                ["000001.png"; "000002.jpg"; "000003.png"]
                Sample.three_train) as (_ & Hloop & _).
    refine (proj1 (Hloop eq_refl ["000001.png"] "000002.jpg" ["000003.png"]
                     eq_refl _) _).
    + constructor; [|constructor]. split; [reflexivity|]. simpl. tauto.
    + discriminate.
  - destruct (validate_images_spec
                ["000001.png"; "000002.png"; "000004.png"]
                Sample.three_train) as (_ & Hloop & _).
    refine (proj2 (Hloop eq_refl ["000001.png"; "000002.png"] "000004.png" []
                     eq_refl _) eq_refl _).
    + repeat constructor; simpl; tauto.
    + simpl. intros [E|[E|[E|[]]]]; discriminate E.
Defined.

(** ** The metadata loader *)

Section JoinFacts.

Variable other : AttrFrame.

Lemma join_row_label pr r :
  In r (join_row other pr) -> stem r = fst pr /\ part r = snd pr.
Proof.
  unfold join_row.
  destruct (List.filter _ _) as [|m ms]; simpl.
  - intros [<-|[]]. now split.
  - intros [<-|Hin]; [now split|].
    apply in_map_iff in Hin as (ar & <- & _). now split.
Qed.

Lemma join_row_nonempty pr : (1 <= length (join_row other pr))%nat.
Proof.
  unfold join_row. destruct (List.filter _ _); simpl; lia.
Qed.

Lemma join_row_missing pr :
  ~ In (fst pr) (map fst (attr_rows other)) ->
  join_row other pr
  = [ mkRow (fst pr) (snd pr) (repeat NaN (length (attr_names other))) ].
Proof.
  intros Hmiss. unfold join_row.
  destruct (List.filter _ _) as [|m ms] eqn:E; [reflexivity|].
  exfalso. apply Hmiss.
  assert (In m (List.filter (label_matches (fst pr)) (attr_rows other)))
    as Hm by (rewrite E; now left).
  apply filter_In in Hm as [Hin Hlab].
  apply String.eqb_eq in Hlab. rewrite <- Hlab. now apply in_map.
Qed.

Lemma join_row_match pr cells :
  In (fst pr, cells) (attr_rows other) ->
  In (mkRow (fst pr) (snd pr) cells) (join_row other pr).
Proof.
  intros Hin.
  assert (In (fst pr, cells)
             (List.filter (label_matches (fst pr)) (attr_rows other)))
    as Hm.
  { apply filter_In. split; [exact Hin|]. apply String.eqb_refl. }
  unfold join_row. destruct (List.filter _ _) as [|m ms]; [destruct Hm|].
  apply (in_map (fun ar => mkRow (fst pr) (snd pr) (snd ar))) in Hm.
  exact Hm.
Qed.

Lemma unique_label_matches label (l : list (string * list cell)) :
  List.NoDup (map fst l) ->
  (length (List.filter (label_matches label) l) <= 1)%nat.
Proof.
  induction l as [|ar l IH]; simpl; [lia|].
  intros Hnd. inversion Hnd as [|? ? Hfresh Hrest]. subst.
  specialize (IH Hrest).
  destruct (label_matches label ar) eqn:E; [|exact IH].
  apply String.eqb_eq in E. simpl.
  destruct (List.filter (label_matches label) l) as [|m ms] eqn:F;
    [simpl; lia|].
  exfalso. apply Hfresh.
  assert (In m (List.filter (label_matches label) l)) as Hm
    by (rewrite F; now left).
  apply filter_In in Hm as [Hin Hlab]. apply String.eqb_eq in Hlab.
  rewrite E, <- Hlab. now apply in_map.
Qed.

Lemma join_row_single pr :
  List.NoDup (map fst (attr_rows other)) ->
  map stem (join_row other pr) = [fst pr].
Proof.
  intros Hnd. pose proof (unique_label_matches (fst pr) _ Hnd) as Hle.
  unfold join_row.
  destruct (List.filter _ _) as [|m [|m' ms]]; simpl in *;
    [reflexivity|reflexivity|lia].
Qed.

Lemma join_rows_length (dfp : PartitionFrame) :
  (length dfp <= length (flat_map (join_row other) dfp))%nat.
Proof.
  induction dfp as [|pr dfp IH]; simpl; [lia|].
  rewrite List.length_app. pose proof (join_row_nonempty pr). lia.
Qed.

Lemma join_rows_index (dfp : PartitionFrame) :
  List.NoDup (map fst (attr_rows other)) ->
  map stem (flat_map (join_row other) dfp) = map fst dfp.
Proof.
  intros Hnd. induction dfp as [|pr dfp IH]; simpl; [reflexivity|].
  rewrite List.map_app, IH, (join_row_single _ Hnd). reflexivity.
Qed.

End JoinFacts.

(** C4, as stated, fails: the loader joins a partition list and an
    attribute list whose label sets differ without raising.  A label
    the attribute list lacks becomes a row of NaN; a label the
    partition list lacks is left out. *)
Lemma load_joins_misaligned_tables :
  load_celeba_specs (fun _ _ => Ok Sample.attrs_one)
                    (fun _ _ => Ok Sample.part_two)
                    "list_attr_celeba.txt" "list_eval_partition.txt" ∅
  = (Ok Sample.joined_nan, ∅)
  /\ load_celeba_specs (fun _ _ => Ok Sample.attrs_two)
                       (fun _ _ => Ok Sample.part_one)
                       "list_attr_celeba.txt" "list_eval_partition.txt" ∅
     = (Ok (mkFrame ["Male"] [ mkRow "000001.jpg" 0 [Some 1] ]), ∅).
Proof. split; reflexivity. Qed.

(** C4, amended. When both files parse and no attribute is named
    [partition], the loader returns a table and leaves the file system
    as it was, whatever the two label sets are: it is the left join on
    the partition list.  Every row carries a label and code of the
    partition list; a label without attribute row gets a row of NaN; a
    label with attribute rows gets their cells; no partition row is
    lost; and when the attribute labels are distinct the index is the
    partition list's labels in their order. *)
Theorem load_is_left_join
    (load_celeba_attrs : FS -> string -> res AttrFrame)
    (load_celeba_partition : FS -> string -> res PartitionFrame)
    (fs : FS) (path_attr path_part : string)
    (df_partition : PartitionFrame) (df_attrs : AttrFrame) :
  load_celeba_partition fs path_part = Ok df_partition ->
  load_celeba_attrs fs path_attr = Ok df_attrs ->
  ~ In PART_COL (attr_names df_attrs) ->
  exists specs,
    load_celeba_specs load_celeba_attrs load_celeba_partition
                      path_attr path_part fs = (Ok specs, fs)
    /\ attr_columns specs = attr_names df_attrs
    /\ (forall r, In r (rows specs) -> In (stem r, part r) df_partition)
    /\ (forall label code,
          In (label, code) df_partition ->
          ~ In label (map fst (attr_rows df_attrs)) ->
          In (mkRow label code (repeat NaN (length (attr_names df_attrs))))
             (rows specs))
    /\ (forall label code cells,
          In (label, code) df_partition ->
          In (label, cells) (attr_rows df_attrs) ->
          In (mkRow label code cells) (rows specs))
    /\ (length df_partition <= len specs)%nat
    /\ (List.NoDup (map fst (attr_rows df_attrs)) ->
        index specs = map fst df_partition).
Proof.
  intros Hpart Hattrs Hfree.
  exists (mkFrame (attr_names df_attrs)
                  (flat_map (join_row df_attrs) df_partition)).
  split; [|split; [reflexivity|split; [|split; [|split; [|split]]]]].
  - unfold load_celeba_specs. rewrite Hpart, Hattrs. simpl. unfold join.
    destruct (existsb _ _) eqn:E; [|reflexivity].
    apply existsb_exists in E as (c & Hin & Hc).
    apply String.eqb_eq in Hc. subst c. contradiction.
  - intros r Hin. simpl in Hin. apply in_flat_map in Hin as (pr & Hpr & Hr).
    apply join_row_label in Hr as [-> ->]. now destruct pr.
  - intros label code Hin Hmiss. simpl. apply in_flat_map.
    exists (label, code). split; [exact Hin|].
    rewrite (join_row_missing df_attrs (label, code) Hmiss). now left.
  - intros label code cells Hin Hcells. simpl. apply in_flat_map.
    exists (label, code). split; [exact Hin|].
    exact (join_row_match df_attrs (label, code) cells Hcells).
  - apply join_rows_length.
  - intros Hnd. unfold index. simpl. now apply join_rows_index.
Qed.

Lemma load_is_left_join_witness :
  exists specs,
    load_celeba_specs (fun _ _ => Ok Sample.attrs_one)
                      (fun _ _ => Ok Sample.part_two)
                      "list_attr_celeba.txt" "list_eval_partition.txt" ∅
    = (Ok specs, ∅)
    /\ index specs = ["000001.jpg"; "000002.jpg"].
Proof.
  destruct (load_is_left_join
              (fun _ _ => Ok Sample.attrs_one) (fun _ _ => Ok Sample.part_two)
              ∅ "list_attr_celeba.txt" "list_eval_partition.txt"
              Sample.part_two Sample.attrs_one eq_refl eq_refl)
    as (specs & Hload & _ & _ & _ & _ & _ & Hindex).
  - simpl. intros [E|[]]. discriminate E.
  - exists specs. split; [exact Hload|]. apply Hindex.
    simpl. constructor; [simpl; tauto|constructor].
Defined.

(** ** File-system actions *)

Section IoFacts.

Lemma insert_keeps_paths (fs : FS) (k p : string) (v : node) :
  is_Some (fs !! p) -> is_Some (<[k := v]> fs !! p).
Proof. intros Hp. apply lookup_insert_is_Some'. now right. Qed.

Lemma io_bind_preserves {A B} (m : io A) (k : A -> io B) :
  preserves_paths m -> (forall a, preserves_paths (k a)) ->
  preserves_paths (io_bind m k).
Proof.
  intros Hm Hk fs fs' r p. unfold io_bind.
  destruct (m fs) as [[a|e] fs1] eqn:E.
  - intros Hrun Hp. eapply Hk; [exact Hrun|]. eapply Hm; eauto.
  - intros [= <- <-] Hp. eapply Hm; eauto.
Qed.

Lemma io_for_preserves {A} (xs : list A) (body : A -> io unit) :
  (forall x, preserves_paths (body x)) -> preserves_paths (io_for xs body).
Proof.
  intros Hbody. induction xs as [|x xs IH]; simpl.
  - intros fs fs' r p [= <- <-]. tauto.
  - apply io_bind_preserves; [apply Hbody|]. intros _. exact IH.
Qed.

Lemma io_bind_no_check_error {A B} (m : io A) (k : A -> io B) :
  raises_no_check_error m -> (forall a, raises_no_check_error (k a)) ->
  raises_no_check_error (io_bind m k).
Proof.
  intros Hm Hk fs fs' e. unfold io_bind.
  destruct (m fs) as [[a|e'] fs1] eqn:E.
  - apply Hk.
  - intros [= <- <-]. eapply Hm. exact E.
Qed.

Lemma io_for_no_check_error {A} (xs : list A) (body : A -> io unit) :
  (forall x, raises_no_check_error (body x)) ->
  raises_no_check_error (io_for xs body).
Proof.
  intros Hbody. induction xs as [|x xs IH]; simpl.
  - intros fs fs' e. discriminate.
  - apply io_bind_no_check_error; [apply Hbody|]. intros _. exact IH.
Qed.

Lemma makedirs_preserves path : preserves_paths (Os.makedirs_exist_ok path).
Proof.
  intros fs fs' r p. unfold Os.makedirs_exist_ok.
  destruct (fs !! path) as [[|data]|]; intros [= <- <-]; try tauto.
  apply insert_keeps_paths.
Qed.

Lemma mkdir_preserves path : preserves_paths (Os.mkdir path).
Proof.
  intros fs fs' r p. unfold Os.mkdir.
  destruct (fs !! path); intros [= <- <-]; try tauto.
  apply insert_keeps_paths.
Qed.

Lemma copy_preserves src dst : preserves_paths (Os.copy src dst).
Proof.
  intros fs fs' r p. unfold Os.copy.
  destruct (fs !! src) as [[|data]|]; try (intros [= <- <-]; tauto).
  destruct (String.eqb _ _); [intros [= <- <-]; tauto|].
  destruct (fs !! _) as [[|data']|]; intros [= <- <-]; try tauto;
    apply insert_keeps_paths.
Qed.

Lemma makedirs_no_check_error path :
  raises_no_check_error (Os.makedirs_exist_ok path).
Proof.
  intros fs fs' e. unfold Os.makedirs_exist_ok.
  destruct (fs !! path) as [[|data]|]; intros [= <- <-]. simpl. tauto.
Qed.

Lemma mkdir_no_check_error path : raises_no_check_error (Os.mkdir path).
Proof.
  intros fs fs' e. unfold Os.mkdir.
  destruct (fs !! path); intros [= <- <-]. simpl. tauto.
Qed.

Lemma copy_no_check_error src dst : raises_no_check_error (Os.copy src dst).
Proof.
  intros fs fs' e. unfold Os.copy.
  destruct (fs !! src) as [[|data]|]; try (intros [= <- <-]; simpl; tauto).
  destruct (String.eqb _ _); [intros [= <- <-]; simpl; tauto|].
  destruct (fs !! _) as [[|data']|]; intros [= <- <-]; simpl; tauto.
Qed.

Lemma listdir_reads_only root (fs fs' : FS) r :
  Os.listdir root fs = (r, fs') -> fs' = fs.
Proof.
  unfold Os.listdir.
  destruct (fs !! root) as [[|data]|]; now intros [= <- <-].
Qed.

Lemma prepare_outdir_preserves outdir d :
  preserves_paths (prepare_outdir outdir d).
Proof.
  apply io_bind_preserves; [apply makedirs_preserves|]. intros _.
  apply io_for_preserves. intros subdir. apply mkdir_preserves.
Qed.

Lemma prepare_outdir_no_check_error outdir d :
  raises_no_check_error (prepare_outdir outdir d).
Proof.
  apply io_bind_no_check_error; [apply makedirs_no_check_error|]. intros _.
  apply io_for_no_check_error. intros subdir. apply mkdir_no_check_error.
Qed.

Lemma CopyWorker_call_preserves self file_index :
  preserves_paths (CopyWorker_call self file_index).
Proof.
  unfold CopyWorker_call. destruct (Path.splitext file_index).
  apply copy_preserves.
Qed.

Lemma CopyWorker_call_no_check_error self file_index :
  raises_no_check_error (CopyWorker_call self file_index).
Proof.
  unfold CopyWorker_call. destruct (Path.splitext file_index).
  apply copy_no_check_error.
Qed.

Lemma split_images_preserves path_celeba outdir d workers :
  preserves_paths (split_images path_celeba outdir d workers).
Proof.
  apply io_for_preserves. intros [subdir files]. unfold pool_imap.
  destruct (workers <? 1).
  - intros fs fs' r p [= <- <-]. tauto.
  - apply io_for_preserves. intros f. apply CopyWorker_call_preserves.
Qed.

Lemma split_images_no_check_error path_celeba outdir d workers :
  raises_no_check_error (split_images path_celeba outdir d workers).
Proof.
  apply io_for_no_check_error. intros [subdir files]. unfold pool_imap.
  destruct (workers <? 1).
  - intros fs fs' e [= <- <-]. simpl. tauto.
  - apply io_for_no_check_error. intros f.
    apply CopyWorker_call_no_check_error.
Qed.

(** After a successful [prepare_outdir] the root is there. *)
Lemma prepare_outdir_creates_root outdir d (fs fs' : FS) :
  prepare_outdir outdir d fs = (Ok tt, fs') -> is_Some (fs' !! outdir).
Proof.
  unfold prepare_outdir, io_bind.
  destruct (Os.makedirs_exist_ok outdir fs) as [[[]|e] fs1] eqn:E;
    [|discriminate].
  intros Hfor.
  assert (is_Some (fs1 !! outdir)) as Hroot.
  { unfold Os.makedirs_exist_ok in E.
    destruct (fs !! outdir) as [[|data]|] eqn:L; inversion E; subst.
    - rewrite L. eauto.
    - rewrite lookup_insert_eq. eauto. }
  eapply (io_for_preserves (map fst d)); [|exact Hfor|exact Hroot].
  intros subdir. apply mkdir_preserves.
Qed.

End IoFacts.

(** ** The end-to-end run *)

Section RunFacts.

Variable load_celeba_attrs : FS -> string -> res AttrFrame.
Variable load_celeba_partition : FS -> string -> res PartitionFrame.

Lemma main_outdir_exists cmdargs (fs : FS) :
  is_Some (fs !! outdir cmdargs) ->
  main load_celeba_attrs load_celeba_partition cmdargs fs
  = (Err (OutdirExists (outdir cmdargs)), fs).
Proof.
  intros Hexists. unfold main, io_bind, Os.path_exists.
  now rewrite bool_decide_eq_true_2.
Qed.

(** A run either stops in a check, the file system untouched, or
    passes every check and then is [write_output]. *)
Lemma main_phases cmdargs (fs fs' : FS) r :
  main load_celeba_attrs load_celeba_partition cmdargs fs = (r, fs') ->
  (fs' = fs /\ exists e, r = Err e /\
     forall split,
       ~ checks_pass load_celeba_attrs load_celeba_partition
           cmdargs fs split)
  \/ (exists split,
        checks_pass load_celeba_attrs load_celeba_partition
          cmdargs fs split
        /\ write_output cmdargs split fs = (r, fs')).
Proof.
  unfold main, io_bind, Os.path_exists, checks_pass.
  case_bool_decide as Hexists.
  { intros [= <- <-]. left. split; [reflexivity|]. eexists.
    split; [reflexivity|]. intros split [Hnone _].
    rewrite Hnone in Hexists. now destruct Hexists. }
  assert (fs !! outdir cmdargs = None) as Hnone.
  { destruct (fs !! outdir cmdargs) eqn:E; [|reflexivity].
    destruct Hexists. eauto. }
  destruct (load_celeba_specs _ _ _ _ fs) as [rs fs1] eqn:Hload.
  assert (fs1 = fs) as -> by (unfold load_celeba_specs in Hload; congruence).
  destruct rs as [specs|e].
  2:{ intros [= <- <-]. left. split; [reflexivity|]. eexists.
      split; [reflexivity|].
      intros split (_ & specs' & images' & H1 & _). congruence. }
  unfold io_lift.
  destruct (validate_attr specs (attr cmdargs)) as [[]|e] eqn:Hattr.
  2:{ intros [= <- <-]. left. split; [reflexivity|]. eexists.
      split; [reflexivity|].
      intros split (_ & specs' & images' & H1 & H2 & _). congruence. }
  destruct (collect_celeba_images (path_celeba cmdargs) fs)
    as [ri fs1] eqn:Hcollect.
  assert (fs1 = fs) as ->.
  { unfold collect_celeba_images, io_bind, io_ret in Hcollect.
    destruct (Os.listdir _ fs) as [[names|e] fs2] eqn:Hls;
      apply listdir_reads_only in Hls; congruence. }
  destruct ri as [images|e].
  2:{ intros [= <- <-]. left. split; [reflexivity|]. eexists.
      split; [reflexivity|].
      intros split (_ & specs' & images' & H1 & H2 & H3 & _). congruence. }
  destruct (validate_images images specs) as [[]|e] eqn:Himages.
  2:{ intros [= <- <-]. left. split; [reflexivity|]. eexists.
      split; [reflexivity|].
      intros split (_ & specs' & images' & H1 & H2 & H3 & H4 & _).
      congruence. }
  destruct (prepare_image_split specs (attr cmdargs) (separate_val cmdargs))
    as [split|e] eqn:Hsplit.
  2:{ intros [= <- <-]. left. split; [reflexivity|]. eexists.
      split; [reflexivity|].
      intros split (_ & specs' & images' & H1 & H2 & H3 & H4 & H5 & _).
      congruence. }
  destruct (validate_image_split specs split) as [[]|e] eqn:Hcount.
  2:{ intros [= <- <-]. left. split; [reflexivity|]. eexists.
      split; [reflexivity|].
      intros split' (_ & specs' & images' & H1 & H2 & H3 & H4 & H5 & H6).
      congruence. }
  intros Hwrite. right. exists split. split; [|exact Hwrite].
  split; [exact Hnone|]. exists specs, images. tauto.
Qed.

Lemma write_output_no_check_error cmdargs split :
  raises_no_check_error (write_output cmdargs split).
Proof.
  apply io_bind_no_check_error; [apply prepare_outdir_no_check_error|].
  intros _. apply split_images_no_check_error.
Qed.

Lemma write_output_creates_root cmdargs split (fs fs' : FS) :
  write_output cmdargs split fs = (Ok tt, fs') ->
  is_Some (fs' !! outdir cmdargs).
Proof.
  unfold write_output, io_bind.
  destruct (prepare_outdir (outdir cmdargs) split fs)
    as [[[]|e] fs1] eqn:Hprep; [|discriminate].
  intros Hcopy. apply prepare_outdir_creates_root in Hprep.
  eapply split_images_preserves; eauto.
Qed.

End RunFacts.

Section RunStops.

Variable load_celeba_attrs : FS -> string -> res AttrFrame.
Variable load_celeba_partition : FS -> string -> res PartitionFrame.
Variable cmdargs : CmdArgs.
Variable fs : FS.
Variable specs : DataFrame.

Hypothesis outdir_free : fs !! outdir cmdargs = None.
Hypothesis loaded :
  load_celeba_specs load_celeba_attrs load_celeba_partition
    (path_attr cmdargs) (path_part cmdargs) fs = (Ok specs, fs).

Local Ltac enter_main :=
  unfold main, io_bind, Os.path_exists;
  rewrite bool_decide_eq_false_2
    by (rewrite outdir_free; intros [? ?]; discriminate);
  rewrite loaded; unfold io_lift.

Lemma main_stops_at_attr e :
  validate_attr specs (attr cmdargs) = Err e ->
  main load_celeba_attrs load_celeba_partition cmdargs fs = (Err e, fs).
Proof. intros Hattr. enter_main. now rewrite Hattr. Qed.

Lemma main_stops_at_images images e :
  validate_attr specs (attr cmdargs) = Ok tt ->
  collect_celeba_images (path_celeba cmdargs) fs = (Ok images, fs) ->
  validate_images images specs = Err e ->
  main load_celeba_attrs load_celeba_partition cmdargs fs = (Err e, fs).
Proof.
  intros Hattr Hcollect Himages. enter_main.
  now rewrite Hattr, Hcollect, Himages.
Qed.

Lemma main_stops_at_count images split e :
  validate_attr specs (attr cmdargs) = Ok tt ->
  collect_celeba_images (path_celeba cmdargs) fs = (Ok images, fs) ->
  validate_images images specs = Ok tt ->
  prepare_image_split specs (attr cmdargs) (separate_val cmdargs)
  = Ok split ->
  validate_image_split specs split = Err e ->
  main load_celeba_attrs load_celeba_partition cmdargs fs = (Err e, fs).
Proof.
  intros Hattr Hcollect Himages Hsplit Hcount. enter_main.
  now rewrite Hattr, Hcollect, Himages, Hsplit, Hcount.
Qed.

End RunStops.

(** C9. In a run of [main], an error of one of the checks (output
    directory exists, unknown attribute, image count, extension or
    index mismatch, split-count mismatch) leaves the file system as it
    was; a run that changes the file system, or succeeds, has passed
    every check; and each failing check stops the run with its own
    error and the file system unchanged. *)
Theorem checks_precede_effects
    (load_celeba_attrs : FS -> string -> res AttrFrame)
    (load_celeba_partition : FS -> string -> res PartitionFrame)
    (cmdargs : CmdArgs) (fs fs' : FS) (r : res unit) :
  main load_celeba_attrs load_celeba_partition cmdargs fs = (r, fs') ->
  (forall e, r = Err e -> is_check_error e -> fs' = fs)
  /\ (fs' <> fs \/ r = Ok tt ->
      exists split,
        checks_pass load_celeba_attrs load_celeba_partition cmdargs fs split)
  /\ (is_Some (fs !! outdir cmdargs) ->
      r = Err (OutdirExists (outdir cmdargs)) /\ fs' = fs)
  /\ (forall specs,
        fs !! outdir cmdargs = None ->
        load_celeba_specs load_celeba_attrs load_celeba_partition
          (path_attr cmdargs) (path_part cmdargs) fs = (Ok specs, fs) ->
        (forall e, validate_attr specs (attr cmdargs) = Err e ->
                   r = Err e /\ fs' = fs)
        /\ (forall images,
              validate_attr specs (attr cmdargs) = Ok tt ->
              collect_celeba_images (path_celeba cmdargs) fs
              = (Ok images, fs) ->
              (forall e, validate_images images specs = Err e ->
                         r = Err e /\ fs' = fs)
              /\ (forall split e,
                    validate_images images specs = Ok tt ->
                    prepare_image_split specs (attr cmdargs)
                      (separate_val cmdargs) = Ok split ->
                    validate_image_split specs split = Err e ->
                    r = Err e /\ fs' = fs))).
Proof.
  intros Hrun. split; [|split; [|split]].
  - intros e -> Hcheck.
    destruct (main_phases _ _ _ _ _ _ Hrun)
      as [[Hsame _]|(split & _ & Hwrite)]; [exact Hsame|].
    now apply write_output_no_check_error in Hwrite.
  - intros Hmoved.
    destruct (main_phases _ _ _ _ _ _ Hrun)
      as [(Hsame & e & -> & _)|(split & Hpass & _)]; [|eauto].
    destruct Hmoved as [Hne|Hok]; [contradiction|discriminate].
  - intros Hexists.
    rewrite (main_outdir_exists _ _ _ _ Hexists) in Hrun.
    now injection Hrun as <- <-.
  - intros specs Hfree Hload. split.
    + intros e Hattr.
      rewrite (main_stops_at_attr _ _ _ _ _ Hfree Hload _ Hattr) in Hrun.
      now injection Hrun as <- <-.
    + intros images Hattr Hcollect. split.
      * intros e Himages.
        rewrite (main_stops_at_images _ _ _ _ _ Hfree Hload _ _
                   Hattr Hcollect Himages) in Hrun.
        now injection Hrun as <- <-.
      * intros split e Himages Hsplit Hcount.
        rewrite (main_stops_at_count _ _ _ _ _ Hfree Hload _ _ _
                   Hattr Hcollect Himages Hsplit Hcount) in Hrun.
        now injection Hrun as <- <-.
Qed.

Lemma checks_precede_effects_witness :
  snd (main Sample.read_attrs Sample.read_partition (Sample.args "Mal")
         Sample.fs_celeba)
  = Sample.fs_celeba.
Proof.
  destruct (checks_precede_effects
              Sample.read_attrs Sample.read_partition (Sample.args "Mal")
              Sample.fs_celeba _ _ (surjective_pairing _)) as [Hkeep _].
  apply (Hkeep (UnknownAttribute "Mal"
                  (list_to_set ["partition"; "Male"] ∖ {[ PART_COL ]}))).
  - vm_compute. reflexivity.
  - exact I.
Defined.

(** C3, as stated, fails for the output preparer itself: on an output
    root that is already there [prepare_outdir] raises nothing and
    creates the bucket directories in it; and when one bucket directory
    is there too it raises the already-exists error after having
    created another. *)
Lemma prepare_outdir_takes_existing_root :
  Sample.fs_root !! "out" = Some Dir
  /\ prepare_outdir "out" Sample.empty_split Sample.fs_root
     = (Ok tt,
        <[ "out/testB" := Dir ]>
          (<[ "out/testA" := Dir ]>
             (<[ "out/trainB" := Dir ]>
                (<[ "out/trainA" := Dir ]> Sample.fs_root))))
  /\ Sample.fs_root !! "out/trainA" = None
  /\ Sample.fs_root_trainB !! "out" = Some Dir
  /\ prepare_outdir "out" Sample.empty_split Sample.fs_root_trainB
     = (Err (FileExistsError "out/trainB"),
        <[ "out/trainA" := Dir ]> Sample.fs_root_trainB)
  /\ Sample.fs_root_trainB !! "out/trainA" = None.
Proof. repeat split; vm_compute; reflexivity. Qed.

(** C3, amended. The tool refuses an output path that is already
    there: [main] raises its already-exists error before anything else
    and leaves the file system as it was.  So of two runs against one
    output path that is not there at first, if the first succeeds then
    the path is there afterwards and the second run, whatever its other
    arguments and inputs, raises that error and changes nothing. *)
Theorem existing_outdir_refused
    (load_celeba_attrs : FS -> string -> res AttrFrame)
    (load_celeba_partition : FS -> string -> res PartitionFrame)
    (cmdargs : CmdArgs) (fs : FS) :
  (is_Some (fs !! outdir cmdargs) ->
   main load_celeba_attrs load_celeba_partition cmdargs fs
   = (Err (OutdirExists (outdir cmdargs)), fs))
  /\ (forall fs1,
        fs !! outdir cmdargs = None ->
        main load_celeba_attrs load_celeba_partition cmdargs fs
        = (Ok tt, fs1) ->
        is_Some (fs1 !! outdir cmdargs)
        /\ forall load_attrs' load_partition' cmdargs',
             outdir cmdargs' = outdir cmdargs ->
             main load_attrs' load_partition' cmdargs' fs1
             = (Err (OutdirExists (outdir cmdargs)), fs1)).
Proof.
  split; [apply main_outdir_exists|].
  intros fs1 _ Hrun.
  assert (is_Some (fs1 !! outdir cmdargs)) as Hthere.
  { destruct (main_phases _ _ _ _ _ _ Hrun)
      as [(_ & e & He & _)|(split & _ & Hwrite)]; [discriminate|].
    exact (write_output_creates_root _ _ _ _ Hwrite). }
  split; [exact Hthere|].
  intros load_attrs' load_partition' cmdargs' Hsame.
  rewrite <- Hsame in *. now apply main_outdir_exists.
Qed.

Lemma existing_outdir_refused_witness :
  main Sample.read_attrs Sample.read_partition (Sample.args "Male")
       Sample.fs_root
  = (Err (OutdirExists "out"), Sample.fs_root)
  /\ exists fs1,
       main Sample.read_attrs Sample.read_partition (Sample.args "Male")
            Sample.fs_celeba = (Ok tt, fs1)
       /\ main Sample.read_attrs Sample.read_partition (Sample.args "Male")
               fs1 = (Err (OutdirExists "out"), fs1).
Proof.
  split.
  - destruct (existing_outdir_refused Sample.read_attrs Sample.read_partition
                (Sample.args "Male") Sample.fs_root) as [Hrefused _].
    apply Hrefused. exists Dir. vm_compute. reflexivity.
  - exists (snd (main Sample.read_attrs Sample.read_partition
                   (Sample.args "Male") Sample.fs_celeba)).
    assert (main Sample.read_attrs Sample.read_partition
              (Sample.args "Male") Sample.fs_celeba
            = (Ok tt, snd (main Sample.read_attrs Sample.read_partition
                             (Sample.args "Male") Sample.fs_celeba)))
      as Hfirst by (vm_compute; reflexivity).
    split; [exact Hfirst|].
    destruct (existing_outdir_refused Sample.read_attrs Sample.read_partition
                (Sample.args "Male") Sample.fs_celeba) as [_ Htwice].
    destruct (Htwice _ eq_refl Hfirst) as [_ Hsecond].
    exact (Hsecond Sample.read_attrs Sample.read_partition
             (Sample.args "Male") eq_refl).
Defined.

(** * Further properties *)

Section StringFacts.

Lemma append_nil_l s : "" +:+ s = s.
Proof. reflexivity. Qed.

Lemma append_cons a s t : String a s +:+ t = String a (s +:+ t).
Proof. reflexivity. Qed.

Lemma rfind_from_range c s i :
  0 <= i ->
  Path.rfind_from c s i = -1
  \/ i <= Path.rfind_from c s i < i + Z.of_nat (String.length s).
Proof.
  revert i. induction s as [|a s IH]; intros i Hi; simpl; [now left|].
  destruct (IH (i + 1)) as [E|Hr]; [lia|..].
  - rewrite E. simpl. destruct (Ascii.eqb a c); [right; lia|now left].
  - destruct (Z.leb_spec 0 (Path.rfind_from c s (i + 1))); [right; lia|lia].
Qed.

Lemma rfind_from_get c s i :
  0 <= i -> 0 <= Path.rfind_from c s i ->
  get (Z.to_nat (Path.rfind_from c s i - i)) s = Some c.
Proof.
  revert i. induction s as [|a s IH]; intros i Hi; simpl; [lia|].
  pose proof (rfind_from_range c s (i + 1)) as Hrange.
  destruct (Z.leb_spec 0 (Path.rfind_from c s (i + 1))) as [Hpos|Hneg].
  - intros _. destruct Hrange as [E|Hr]; [lia|lia|].
    replace (Z.to_nat (Path.rfind_from c s (i + 1) - i))
      with (S (Z.to_nat (Path.rfind_from c s (i + 1) - (i + 1)))) by lia.
    apply IH; lia.
  - destruct (Ascii.eqb_spec a c) as [->|_]; [|lia].
    intros _. now rewrite Z.sub_diag.
Qed.

Lemma rfind_from_app c s1 s2 i :
  0 <= i ->
  Path.rfind_from c (s1 +:+ s2) i
  = if 0 <=? Path.rfind_from c s2 (i + Z.of_nat (String.length s1))
    then Path.rfind_from c s2 (i + Z.of_nat (String.length s1))
    else Path.rfind_from c s1 i.
Proof.
  revert i. induction s1 as [|a s1 IH]; intros i Hi.
  - rewrite append_nil_l. cbn [String.length Z.of_nat Path.rfind_from].
    rewrite Z.add_0_r.
    destruct (Z.leb_spec 0 (Path.rfind_from c s2 i)); [reflexivity|].
    destruct (rfind_from_range c s2 i Hi); lia.
  - rewrite append_cons. cbn [Path.rfind_from String.length].
    rewrite IH by lia.
    replace (i + 1 + Z.of_nat (String.length s1))
      with (i + Z.of_nat (S (String.length s1))) by lia.
    destruct (Z.leb_spec 0
                (Path.rfind_from c s2 (i + Z.of_nat (S (String.length s1)))))
      as [Hpos|Hneg].
    + apply Z.leb_le in Hpos. now rewrite Hpos.
    + reflexivity.
Qed.

Lemma substring_split n p :
  (n <= String.length p)%nat ->
  substring 0 n p +:+ substring n (String.length p - n) p = p.
Proof.
  revert p. induction n as [|n IH]; intros p Hn.
  - rewrite Nat.sub_0_r. destruct p as [|a p]; [reflexivity|].
    cbn [substring String.length]. rewrite append_nil_l. f_equal.
    clear. induction p as [|a p IH]; [reflexivity|].
    cbn [substring String.length]. now rewrite IH.
  - destruct p as [|a p]; cbn [String.length] in Hn; [lia|].
    cbn [substring String.length Nat.sub]. rewrite append_cons.
    f_equal. apply IH. lia.
Qed.

Lemma substring_prefix b e :
  substring 0 (String.length b) (b +:+ e) = b.
Proof.
  induction b as [|a b IH].
  - now destruct e.
  - rewrite append_cons. cbn [String.length substring]. now rewrite IH.
Qed.

Lemma substring_suffix b e :
  substring (String.length b) (String.length e) (b +:+ e) = e.
Proof.
  induction b as [|a b IH];
    [|rewrite append_cons; cbn [String.length substring]; exact IH].
  rewrite append_nil_l. cbn [String.length].
  destruct e as [|a e]; [reflexivity|].
  cbn [String.length substring]. f_equal.
  clear. induction e as [|a e IH]; [reflexivity|].
  cbn [String.length substring]. now rewrite IH.
Qed.

Lemma length_append b e :
  String.length (b +:+ e) = (String.length b + String.length e)%nat.
Proof.
  induction b as [|a b IH]; [reflexivity|].
  rewrite append_cons. cbn [String.length]. now rewrite IH.
Qed.

Lemma append_inv_tail b1 b2 e : b1 +:+ e = b2 +:+ e -> b1 = b2.
Proof.
  revert b2. induction b1 as [|a b1 IH]; intros [|a' b2] E;
    rewrite ?append_nil_l, ?append_cons in E.
  - reflexivity.
  - apply (f_equal String.length) in E.
    cbn [String.length] in E. rewrite length_append in E. lia.
  - apply (f_equal String.length) in E.
    cbn [String.length] in E. rewrite length_append in E. lia.
  - injection E as -> E. f_equal. now apply IH.
Qed.

Lemma rfind_from_none c s i :
  0 <= i -> (Path.rfind_from c s i = -1 <-> ~ occurs c s).
Proof.
  unfold occurs. revert i. induction s as [|a s IH]; intros i Hi.
  - simpl. tauto.
  - cbn [Path.rfind_from list_ascii_of_string In].
    specialize (IH (i + 1) ltac:(lia)).
    pose proof (rfind_from_range c s (i + 1) ltac:(lia)) as Hrange.
    destruct (Z.leb_spec 0 (Path.rfind_from c s (i + 1))) as [Hpos|Hneg].
    + split; [lia|]. intros Hno. exfalso.
      assert (Path.rfind_from c s (i + 1) = -1) by (apply IH; tauto). lia.
    + assert (Path.rfind_from c s (i + 1) = -1) as E by lia.
      apply IH in E.
      destruct (Ascii.eqb_spec a c) as [->|Hne]; split; try lia; tauto.
  Qed.

Lemma splitext_loop_only_dots n p k dot :
  Path.splitext_loop n p k dot
  = if only_dots n p k then (p, "")
    else (Path.slice_to p dot, Path.slice_from p dot).
Proof.
  revert k. induction n as [|n IH]; intros k; [reflexivity|].
  cbn [Path.splitext_loop only_dots].
  destruct (get (Z.to_nat k) p) as [a|]; [|reflexivity].
  destruct (Ascii.eqb a Path.extsep); [apply IH|reflexivity].
Qed.

Lemma only_dots_app n b e k :
  0 <= k -> k + Z.of_nat n <= Z.of_nat (String.length b) ->
  only_dots n (b +:+ e) k = only_dots n b k.
Proof.
  revert k. induction n as [|n IH]; intros k Hk Hn; [reflexivity|].
  cbn [only_dots].
  rewrite <- (append_correct1 b e) by lia.
  destruct (get (Z.to_nat k) b); [|reflexivity].
  rewrite IH by lia. reflexivity.
Qed.

(** [splitext] on a name that ends in a dot and a suffix free of dots
    and separators. *)
Lemma splitext_with_ext b e' :
  ~ occurs Path.extsep e' -> ~ occurs Path.sep e' ->
  Path.splitext (b +:+ String Path.extsep e')
  = if only_dots (Z.to_nat (Z.of_nat (String.length b)
                            - (Path.rfind Path.sep b + 1)))
                 b (Path.rfind Path.sep b + 1)
    then (b +:+ String Path.extsep e', "")
    else (b, String Path.extsep e').
Proof.
  intros Hdot Hsep. unfold Path.splitext, Path.rfind.
  set (n := Z.of_nat (String.length b)).
  assert (0 <= n) as Hn by lia.
  assert (Path.rfind_from Path.extsep (b +:+ String Path.extsep e') 0 = n)
    as ->.
  { rewrite rfind_from_app by lia. cbn [Path.rfind_from]. fold n.
    rewrite (proj2 (rfind_from_none Path.extsep e' (0 + n + 1) ltac:(lia)))
      by exact Hdot.
    cbn. destruct (Z.leb_spec 0 (0 + n)); [lia|lia]. }
  assert (Path.rfind_from Path.sep (b +:+ String Path.extsep e') 0
          = Path.rfind_from Path.sep b 0) as ->.
  { rewrite rfind_from_app by lia. cbn [Path.rfind_from]. fold n.
    rewrite (proj2 (rfind_from_none Path.sep e' (0 + n + 1) ltac:(lia)))
      by exact Hsep.
    reflexivity. }
  pose proof (rfind_from_range Path.sep b 0 ltac:(lia)) as Hrange.
  fold n in Hrange.
  destruct (Z.ltb_spec (Path.rfind_from Path.sep b 0) n) as [_|Hge]; [|lia].
  rewrite splitext_loop_only_dots, only_dots_app by lia.
  destruct (only_dots _ b _); [reflexivity|].
  unfold Path.slice_to, Path.slice_from. subst n. rewrite Nat2Z.id.
  rewrite substring_prefix, length_append.
  replace (String.length b + String.length (String Path.extsep e')
           - String.length b)%nat
    with (String.length (String Path.extsep e')) by lia.
  now rewrite substring_suffix.
Qed.

Lemma append_nil_r s : s +:+ "" = s.
Proof.
  induction s as [|a s IH]; [reflexivity|].
  rewrite append_cons. now rewrite IH.
Qed.

(** Cutting a string at a position inside it. *)
Lemma cut_at n p :
  (n < String.length p)%nat ->
  exists b c e',
    p = b +:+ String c e'
    /\ String.length b = n
    /\ get n p = Some c
    /\ substring 0 n p = b
    /\ substring n (String.length p - n) p = String c e'.
Proof.
  revert p. induction n as [|n IH]; intros [|a p] Hn;
    cbn [String.length] in Hn; try lia.
  - exists "", a, p. repeat split; try reflexivity.
    cbn [String.length substring Nat.sub]. f_equal.
    clear. induction p as [|a p IH]; [reflexivity|].
    cbn [String.length substring]. now rewrite IH.
  - destruct (IH p ltac:(lia)) as (b & c & e' & Hp & Hb & Hget & Hpre & Hsuf).
    exists (String a b), c, e'. repeat split.
    + rewrite append_cons. now f_equal.
    + cbn [String.length]. now f_equal.
    + exact Hget.
    + cbn [substring]. now f_equal.
    + exact Hsuf.
Qed.

Lemma splitext_parts (p : string) :
  fst (Path.splitext p) +:+ snd (Path.splitext p) = p
  /\ (snd (Path.splitext p) = ""
      \/ exists e', snd (Path.splitext p) = String Path.extsep e'
                    /\ ~ occurs Path.extsep e' /\ ~ occurs Path.sep e').
Proof.
  unfold Path.splitext.
  pose proof (rfind_from_range Path.sep p 0 ltac:(lia)) as Hsep.
  pose proof (rfind_from_range Path.extsep p 0 ltac:(lia)) as Hdot.
  pose proof (rfind_from_get Path.extsep p 0 ltac:(lia)) as Hget.
  pose proof (rfind_from_app Path.extsep) as Happ_dot.
  pose proof (rfind_from_app Path.sep) as Happ_sep.
  unfold Path.rfind.
  set (sepIndex := Path.rfind_from Path.sep p 0) in *.
  set (dotIndex := Path.rfind_from Path.extsep p 0) in *.
  destruct (Z.ltb_spec sepIndex dotIndex) as [Hlt|Hge];
    [|split; [apply append_nil_r|now left]].
  rewrite splitext_loop_only_dots.
  destruct (only_dots _ p _); [split; [apply append_nil_r|now left]|].
  cbn [fst snd]. unfold Path.slice_to, Path.slice_from.
  assert (0 <= dotIndex) as Hpos by lia.
  destruct (cut_at (Z.to_nat dotIndex) p ltac:(lia))
    as (b & c & e' & Hp & Hb & Hc & Hpre & Hsuf).
  rewrite Hpre, Hsuf. split; [now symmetry|]. right.
  rewrite Z.sub_0_r in Hget. rewrite (Hget Hpos) in Hc. injection Hc as <-.
  exists e'. split; [reflexivity|].
  assert (Z.of_nat (String.length b) = dotIndex) as Hlen by lia.
  split.
  - intros Hocc. apply (rfind_from_none Path.extsep e' (dotIndex + 1)) in Hocc;
      [exact Hocc|lia|].
    pose proof (rfind_from_range Path.extsep e' (dotIndex + 1) ltac:(lia))
      as Hr.
    destruct Hr as [E|Hr]; [exact E|exfalso].
    specialize (Happ_dot b (String Path.extsep e') 0 ltac:(lia)).
    rewrite <- Hp in Happ_dot. fold dotIndex in Happ_dot.
    cbn [Path.rfind_from] in Happ_dot. rewrite Hlen, Z.add_0_l in Happ_dot.
    destruct (Z.leb_spec 0 (Path.rfind_from Path.extsep e' (dotIndex + 1)));
      [|lia].
    destruct (Z.leb_spec 0 (Path.rfind_from Path.extsep e' (dotIndex + 1)));
      lia.
  - intros Hocc. apply (rfind_from_none Path.sep e' (dotIndex + 1)) in Hocc;
      [exact Hocc|lia|].
    pose proof (rfind_from_range Path.sep e' (dotIndex + 1) ltac:(lia))
      as Hr.
    destruct Hr as [E|Hr]; [exact E|exfalso].
    specialize (Happ_sep b (String Path.extsep e') 0 ltac:(lia)).
    rewrite <- Hp in Happ_sep. fold sepIndex in Happ_sep.
    cbn [Path.rfind_from] in Happ_sep. rewrite Hlen, Z.add_0_l in Happ_sep.
    destruct (Z.leb_spec 0 (Path.rfind_from Path.sep e' (dotIndex + 1)));
      [|lia].
    destruct (Z.leb_spec 0 (Path.rfind_from Path.sep e' (dotIndex + 1)));
      lia.
Qed.

End StringFacts.

(** X1. [os.path.splitext]: the two parts make up the name again, and the
    extension is empty or a dot followed by characters that are neither
    dots nor separators. *)
Theorem splitext_root_ext (p : string) :
  fst (Path.splitext p) +:+ snd (Path.splitext p) = p
  /\ (snd (Path.splitext p) = ""
      \/ exists e', snd (Path.splitext p) = String Path.extsep e'
                    /\ ~ occurs Path.extsep e' /\ ~ occurs Path.sep e').
Proof. apply splitext_parts. Qed.

(** ** From an image to its index label and back *)

Section NameFacts.

Lemma splitext_append p :
  fst (Path.splitext p) +:+ snd (Path.splitext p) = p.
Proof. apply splitext_parts. Qed.

Lemma FILE_EXT_shape :
  FILE_EXT = String Path.extsep "png"
  /\ ~ occurs Path.extsep "png" /\ ~ occurs Path.sep "png".
Proof.
  split; [reflexivity|].
  split; intros [E|[E|[E|[]]]]; discriminate E.
Qed.

Lemma INDEX_EXT_shape :
  INDEX_EXT = String Path.extsep "jpg"
  /\ ~ occurs Path.extsep "jpg" /\ ~ occurs Path.sep "jpg".
Proof.
  split; [reflexivity|].
  split; intros [E|[E|[E|[]]]]; discriminate E.
Qed.

(** The index label of a [.png] image splits into the image's base
    name and [.jpg]. *)
Lemma splitext_entry_index image :
  snd (Path.splitext image) = FILE_EXT ->
  Path.splitext (entry_index image) = (fst (Path.splitext image), INDEX_EXT).
Proof.
  intros Hext. unfold entry_index.
  pose proof (splitext_append image) as Himage. rewrite Hext in Himage.
  set (base := fst (Path.splitext image)) in *.
  destruct FILE_EXT_shape as (Hpng & Hpng1 & Hpng2).
  destruct INDEX_EXT_shape as (Hjpg & Hjpg1 & Hjpg2).
  rewrite <- Himage in Hext. rewrite Hpng in Hext at 1.
  rewrite (splitext_with_ext base "png" Hpng1 Hpng2) in Hext.
  rewrite Hjpg at 1. rewrite (splitext_with_ext base "jpg" Hjpg1 Hjpg2).
  destruct (only_dots _ base _); [discriminate Hext|reflexivity].
Qed.

Lemma image_name_entry_index image :
  snd (Path.splitext image) = FILE_EXT ->
  image_name (entry_index image) = image.
Proof.
  intros Hext. unfold image_name.
  rewrite (splitext_entry_index _ Hext). cbn [fst].
  rewrite <- Hext. apply splitext_append.
Qed.

Lemma entry_index_inj image1 image2 :
  snd (Path.splitext image1) = FILE_EXT ->
  snd (Path.splitext image2) = FILE_EXT ->
  entry_index image1 = entry_index image2 -> image1 = image2.
Proof.
  intros H1 H2 E.
  rewrite <- (image_name_entry_index _ H1), <- (image_name_entry_index _ H2).
  now rewrite E.
Qed.

Lemma CopyWorker_call_paths self file_index :
  CopyWorker_call self file_index
  = Os.copy (Path.join (_root_src self) (image_name file_index))
            (Path.join (_root_dst self) (image_name file_index)).
Proof.
  unfold CopyWorker_call, image_name.
  now destruct (Path.splitext file_index).
Qed.

End NameFacts.

(** X2. For an image name with the extension [.png], the label looked up
    in the index splits back into the same base name and [.jpg], so the
    copy worker given that label reads and writes the file of exactly
    that image name. *)
Theorem index_entry_names_image (image : string) :
  snd (Path.splitext image) = FILE_EXT ->
  Path.splitext (entry_index image) = (fst (Path.splitext image), INDEX_EXT)
  /\ image_name (entry_index image) = image
  /\ forall self,
       CopyWorker_call self (entry_index image)
       = Os.copy (Path.join (_root_src self) image)
                 (Path.join (_root_dst self) image).
Proof.
  intros Hext. split; [now apply splitext_entry_index|].
  split; [now apply image_name_entry_index|].
  intros self. rewrite CopyWorker_call_paths.
  now rewrite (image_name_entry_index _ Hext).
Qed.

Lemma index_entry_names_image_witness :
  snd (Path.splitext "dir.d/000001.png") = FILE_EXT
  /\ entry_index "dir.d/000001.png" = "dir.d/000001.jpg"
  /\ image_name "dir.d/000001.jpg" = "dir.d/000001.png".
Proof.
  assert (snd (Path.splitext "dir.d/000001.png") = FILE_EXT) as Hext
    by reflexivity.
  split; [exact Hext|]. split; [reflexivity|].
  exact (proj1 (proj2 (index_entry_names_image _ Hext))).
Defined.

(** ** The image list against the index *)

Section ImagesAndIndex.

Variable specs : DataFrame.

Lemma validate_images_Ok images :
  validate_images images specs = Ok tt ->
  length images = len specs /\ Forall (image_ok specs) images.
Proof.
  unfold validate_images.
  destruct (Nat.eqb_spec (length images) (len specs)) as [Hlen|Hne];
    simpl; [|discriminate].
  intros Hok. split; [exact Hlen|]. now apply validate_each_Ok.
Qed.

Lemma entries_match_index images :
  validate_images images specs = Ok tt ->
  List.NoDup images ->
  Permutation (map entry_index images) (index specs).
Proof.
  intros Hok Hnd. apply validate_images_Ok in Hok as [Hlen Hall].
  rewrite List.Forall_forall in Hall.
  apply NoDup_Permutation_bis.
  - apply Finite.Injective_map_NoDup_in; [|exact Hnd].
    intros x y Hx Hy. apply entry_index_inj.
    + exact (proj1 (Hall x Hx)).
    + exact (proj1 (Hall y Hy)).
  - rewrite List.length_map. unfold index. rewrite List.length_map.
    unfold len in Hlen. lia.
  - intros label Hin. apply in_map_iff in Hin as (image & <- & Himage).
    exact (proj2 (Hall image Himage)).
Qed.

End ImagesAndIndex.

(** X3. When [validate_images] accepts a list of distinct file names, the
    labels it looked up are the index, rearranged: the index has no
    repeated label, and every label of the table is the label of one
    listed image, the one the copy worker will name. *)
Theorem validated_images_cover_index (images : list string)
    (specs : DataFrame) :
  validate_images images specs = Ok tt ->
  List.NoDup images ->
  Permutation (map entry_index images) (index specs)
  /\ List.NoDup (index specs)
  /\ forall label,
       In label (index specs) ->
       In (image_name label) images
       /\ entry_index (image_name label) = label.
Proof.
  intros Hok Hnd.
  pose proof (entries_match_index specs images Hok Hnd) as Hperm.
  split; [exact Hperm|]. split.
  - eapply Permutation_NoDup; [exact Hperm|].
    apply validate_images_Ok in Hok as [_ Hall].
    rewrite List.Forall_forall in Hall.
    apply Finite.Injective_map_NoDup_in; [|exact Hnd].
    intros x y Hx Hy. apply entry_index_inj.
    + exact (proj1 (Hall x Hx)).
    + exact (proj1 (Hall y Hy)).
  - intros label Hin.
    apply (Permutation_in _ (Permutation_sym Hperm)) in Hin.
    apply in_map_iff in Hin as (image & <- & Himage).
    apply validate_images_Ok in Hok as [_ Hall].
    rewrite List.Forall_forall in Hall.
    rewrite (image_name_entry_index _ (proj1 (Hall image Himage))).
    now split.
Qed.

Lemma validated_images_cover_index_witness :
  validate_images ["000003.png"; "000001.png"; "000002.png"]
    Sample.three_train = Ok tt
  /\ In (image_name "000002.jpg")
        ["000003.png"; "000001.png"; "000002.png"].
Proof.
  assert (validate_images ["000003.png"; "000001.png"; "000002.png"]
            Sample.three_train = Ok tt) as Hok by reflexivity.
  split; [exact Hok|].
  assert (List.NoDup ["000003.png"; "000001.png"; "000002.png"]) as Hnd.
  { repeat constructor; simpl; intros H;
      repeat destruct H as [H|H]; try discriminate H; exact H. }
  destruct (validated_images_cover_index _ _ Hok Hnd) as (_ & _ & Hcover).
  apply Hcover. simpl. tauto.
Defined.

(** ** The sorted listing *)

Section Listing.

Lemma insert_sorted_perm x l : Permutation (insert_sorted x l) (x :: l).
Proof.
  induction l as [|y l IH]; simpl; [reflexivity|].
  destruct (String.leb x y); [reflexivity|].
  rewrite IH. apply perm_swap.
Qed.

Lemma sorted_perm l : Permutation (sorted l) l.
Proof.
  induction l as [|x l IH]; simpl; [reflexivity|].
  rewrite insert_sorted_perm. now constructor.
Qed.

Lemma insert_sorted_HdRel a x l :
  str_le a x -> HdRel str_le a l -> HdRel str_le a (insert_sorted x l).
Proof.
  intros Hax Hal. destruct l as [|y l]; simpl; [now constructor|].
  destruct (String.leb x y); constructor; [exact Hax|].
  now inversion Hal.
Qed.

Lemma insert_sorted_Sorted x l :
  Sorted str_le l -> Sorted str_le (insert_sorted x l).
Proof.
  induction l as [|y l IH]; simpl; intros Hs.
  - repeat constructor.
  - destruct (String.leb x y) eqn:E.
    + constructor; [exact Hs|]. now constructor.
    + inversion Hs as [|? ? Hl Hy]. subst.
      constructor; [now apply IH|].
      apply insert_sorted_HdRel; [|exact Hy].
      destruct (String.leb_total x y) as [H|H]; [congruence|exact H].
Qed.

Lemma sorted_Sorted l : Sorted str_le (sorted l).
Proof.
  induction l as [|x l IH]; simpl; [constructor|].
  now apply insert_sorted_Sorted.
Qed.

Lemma strip_prefix_Some pre s t :
  Os.strip_prefix pre s = Some t -> s = pre +:+ t.
Proof.
  revert s. induction pre as [|a pre IH]; intros s; simpl.
  - now intros [= ->].
  - destruct s as [|b s]; [discriminate|].
    destruct (Ascii.eqb_spec a b) as [->|_]; [|discriminate].
    intros H. rewrite append_cons. f_equal. now apply IH.
Qed.

Lemma entry_name_Some root path name :
  Os.entry_name root path = Some name ->
  path = Os.dir_prefix root +:+ name
  /\ name <> "" /\ ~ occurs Path.sep name.
Proof.
  unfold Os.entry_name.
  destruct (Os.strip_prefix _ path) as [t|] eqn:E; [|discriminate].
  apply strip_prefix_Some in E.
  destruct (String.eqb_spec t "") as [->|Hne]; [discriminate|]. simpl.
  destruct (Z.leb_spec 0 (Path.rfind Path.sep t)) as [|Hneg]; [discriminate|].
  intros [= <-]. split; [exact E|]. split; [exact Hne|].
  apply (rfind_from_none Path.sep t 0); [lia|].
  unfold Path.rfind in Hneg.
  destruct (rfind_from_range Path.sep t 0); lia.
Qed.

Lemma NoDup_omap_inj {A B} (f : A -> option B) (l : list A) :
  (forall x y n, f x = Some n -> f y = Some n -> x = y) ->
  List.NoDup l -> List.NoDup (omap f l).
Proof.
  intros Hinj. induction l as [|x l IH]; intros Hnd; [constructor|].
  inversion Hnd as [|? ? Hx Hl]. subst. cbn.
  destruct (f x) as [n|] eqn:E; [|now apply IH].
  constructor; [|now apply IH].
  intros Hin. apply Hx. clear IH Hnd Hx Hl.
  induction l as [|y l IHl]; [destruct Hin|].
  cbn in Hin. destruct (f y) as [m|] eqn:F.
  - destruct Hin as [->|Hin]; [left; symmetry; eauto|right; auto].
  - right. auto.
Qed.

Lemma In_omap {A B} (f : A -> option B) (l : list A) n :
  In n (omap f l) -> exists x, In x l /\ f x = Some n.
Proof.
  induction l as [|x l IH]; cbn; [tauto|].
  destruct (f x) as [m|] eqn:E.
  - intros [->|Hin]; [eauto|]. destruct (IH Hin) as (y & Hy & Hf). eauto.
  - intros Hin. destruct (IH Hin) as (y & Hy & Hf). eauto.
Qed.

Lemma keys_NoDup (fs : FS) : List.NoDup (map fst (map_to_list fs)).
Proof.
  apply NoDup_ListNoDup.
  replace (map fst (map_to_list fs)) with (map_to_list fs).*1.
  - apply NoDup_fst_map_to_list.
  - generalize (map_to_list fs). intros l.
    induction l as [|x l IH]; [reflexivity|]. cbn. now rewrite IH.
Qed.

Lemma keys_exist (fs : FS) path :
  In path (map fst (map_to_list fs)) -> is_Some (fs !! path).
Proof.
  intros Hin. apply in_map_iff in Hin as ([k v] & <- & Hkv).
  apply list_elem_of_In, elem_of_map_to_list in Hkv. simpl. eauto.
Qed.

(** What a successful listing holds. *)
Lemma collect_celeba_images_Ok root (fs fs' : FS) images :
  collect_celeba_images root fs = (Ok images, fs') ->
  fs' = fs
  /\ fs !! root = Some Dir
  /\ Sorted str_le images
  /\ List.NoDup images
  /\ Permutation images
       (omap (Os.entry_name root) (map fst (map_to_list fs)))
  /\ forall image,
       In image images ->
       is_Some (fs !! (Os.dir_prefix root +:+ image))
       /\ image <> "" /\ ~ occurs Path.sep image.
Proof.
  unfold collect_celeba_images, io_bind, Os.listdir, io_ret.
  destruct (fs !! root) as [[|data]|]; try discriminate.
  intros [= <- <-].
  set (names := omap (Os.entry_name root) (map fst (map_to_list fs))).
  assert (List.NoDup names) as Hnd.
  { apply NoDup_omap_inj; [|apply keys_NoDup].
    intros x y n Hx Hy.
    apply entry_name_Some in Hx as [-> _].
    apply entry_name_Some in Hy as [-> _]. reflexivity. }
  split; [reflexivity|]. split; [reflexivity|].
  split; [apply sorted_Sorted|].
  split; [eapply Permutation_NoDup; [symmetry; apply sorted_perm|exact Hnd]|].
  split; [apply sorted_perm|].
  intros image Hin. apply (Permutation_in _ (sorted_perm names)) in Hin.
  apply In_omap in Hin as (path & Hpath & Hname).
  apply entry_name_Some in Hname as (-> & Hne & Hsep).
  split; [now apply keys_exist|]. now split.
Qed.

End Listing.

(** X4. [collect_celeba_images] changes nothing on disk.  It raises the
    not-found error when the directory is missing and the
    not-a-directory error when it is a file; otherwise it returns the
    directory's entries, each once, in ascending order. *)
Theorem collect_celeba_images_sorted (root : string) (fs : FS) :
  (fs !! root = None ->
   collect_celeba_images root fs = (Err (FileNotFoundError root), fs))
  /\ (forall data,
        fs !! root = Some (File data) ->
        collect_celeba_images root fs = (Err (NotADirectoryError root), fs))
  /\ (fs !! root = Some Dir ->
      exists images names,
        collect_celeba_images root fs = (Ok images, fs)
        /\ Os.listdir root fs = (Ok names, fs)
        /\ Permutation images names
        /\ List.NoDup images
        /\ Sorted str_le images).
Proof.
  split; [|split].
  - intros Hroot. unfold collect_celeba_images, io_bind, Os.listdir.
    now rewrite Hroot.
  - intros data Hroot. unfold collect_celeba_images, io_bind, Os.listdir.
    now rewrite Hroot.
  - intros Hroot.
    destruct (collect_celeba_images root fs) as [r fs'] eqn:Hrun.
    assert (exists images, r = Ok images) as [images ->].
    { unfold collect_celeba_images, io_bind, Os.listdir in Hrun.
      rewrite Hroot in Hrun. injection Hrun as <- _. eauto. }
    destruct (collect_celeba_images_Ok _ _ _ _ Hrun)
      as (-> & _ & Hsorted & Hnd & Hperm & _).
    exists images, (omap (Os.entry_name root) (map fst (map_to_list fs))).
    split; [reflexivity|]. split; [unfold Os.listdir; now rewrite Hroot|].
    tauto.
Qed.

Lemma collect_celeba_images_sorted_witness :
  exists images,
    collect_celeba_images "img" Sample.fs_celeba = (Ok images, Sample.fs_celeba)
    /\ Sorted str_le images.
Proof.
  destruct (collect_celeba_images_sorted "img" Sample.fs_celeba)
    as (_ & _ & Hdir).
  destruct (Hdir eq_refl) as (images & names & Hrun & _ & _ & _ & Hsorted).
  exists images. split; [exact Hrun|exact Hsorted].
Defined.

(** ** Missing keys in the splitter *)

Section SplitErrors.

Lemma dict_get_PARTITIONS_None partition :
  ~ In partition ["train"; "val"; "test"] ->
  dict_get PARTITIONS partition = None.
Proof.
  intros Hnot. unfold PARTITIONS. cbn [dict_get].
  destruct (String.eqb_spec "train" partition) as [<-|_];
    [destruct Hnot; simpl; tauto|].
  destruct (String.eqb_spec "val" partition) as [<-|_];
    [destruct Hnot; simpl; tauto|].
  destruct (String.eqb_spec "test" partition) as [<-|_];
    [destruct Hnot; simpl; tauto|].
  reflexivity.
Qed.

Lemma prepare_single_split_no_partition specs attr partition :
  ~ In partition ["train"; "val"; "test"] ->
  prepare_single_split specs attr partition = Err (KeyError partition).
Proof.
  intros Hnot. unfold prepare_single_split.
  rewrite getitem_PART_COL. simpl res_bind. unfold dict_getitem.
  now rewrite (dict_get_PARTITIONS_None _ Hnot).
Qed.

Lemma prepare_single_split_no_attr specs attr partition :
  In partition ["train"; "val"; "test"] ->
  ~ In attr (columns specs) ->
  prepare_single_split specs attr partition = Err (KeyError attr).
Proof.
  intros Hpart Hnot. unfold prepare_single_split.
  rewrite getitem_PART_COL. simpl res_bind. unfold dict_getitem.
  assert (exists code, dict_get PARTITIONS partition = Some code)
    as [code ->].
  { simpl in Hpart. destruct Hpart as [<-|[<-|[<-|[]]]]; simpl; eauto. }
  simpl res_bind. now rewrite (getitem_not_In _ _ Hnot).
Qed.

End SplitErrors.

(** X5. [prepare_single_split] raises [KeyError] of the partition name when
    it is none of train, val and test, and otherwise [KeyError] of the
    attribute when the table has no such column.  [prepare_image_split]
    raises exactly when the attribute is not a column, so it never
    raises after [validate_attr] has accepted the attribute. *)
Theorem splitter_key_errors (specs : DataFrame) (attr partition : string)
    (separate_val : bool) :
  (~ In partition ["train"; "val"; "test"] ->
   prepare_single_split specs attr partition = Err (KeyError partition))
  /\ (In partition ["train"; "val"; "test"] ->
      ~ In attr (columns specs) ->
      prepare_single_split specs attr partition = Err (KeyError attr))
  /\ (~ In attr (columns specs) ->
      prepare_image_split specs attr separate_val = Err (KeyError attr))
  /\ (In attr (columns specs) ->
      exists d, prepare_image_split specs attr separate_val = Ok d)
  /\ (validate_attr specs attr = Ok tt ->
      exists d, prepare_image_split specs attr separate_val = Ok d).
Proof.
  split; [apply prepare_single_split_no_partition|].
  split; [apply prepare_single_split_no_attr|].
  split; [|split].
  - intros Hnot. unfold prepare_image_split.
    rewrite (prepare_single_split_no_attr specs attr "train");
      [reflexivity|simpl; tauto|exact Hnot].
  - intros Hin. rewrite (prepare_image_split_rowwise _ _ _ Hin). eauto.
  - intros Hvalid. apply validate_attr_valid_In in Hvalid.
    rewrite (prepare_image_split_rowwise _ _ _ Hvalid). eauto.
Qed.

Lemma splitter_key_errors_witness :
  prepare_single_split Sample.three_train "Male" "dev" = Err (KeyError "dev")
  /\ prepare_single_split Sample.three_train "Mal" "train"
     = Err (KeyError "Mal")
  /\ prepare_image_split Sample.three_train "Mal" true = Err (KeyError "Mal").
Proof.
  destruct (splitter_key_errors Sample.three_train "Male" "dev" true)
    as (Hpart & _).
  destruct (splitter_key_errors Sample.three_train "Mal" "train" true)
    as (_ & Hattr & Hsplit & _).
  assert (~ In "Mal" (columns Sample.three_train)) as Hnot.
  { simpl. intros [E|[E|[]]]; discriminate E. }
  split; [|split].
  - apply Hpart. simpl. intros [E|[E|[E|[]]]]; discriminate E.
  - apply Hattr; [simpl; tauto|exact Hnot].
  - apply Hsplit. exact Hnot.
Defined.

(** ** Loops over the file system *)

Section LoopFacts.

Lemma io_for_map {A B} (f : A -> B) (xs : list A) (body : B -> io unit) :
  io_for (map f xs) body = io_for xs (fun x => body (f x)).
Proof.
  induction xs as [|x xs IH]; [reflexivity|]. simpl. now rewrite IH.
Qed.

(** A loop whose steps keep an invariant keeps it, and raises only
    what its steps raise. *)
Lemma io_for_inv {A} (Inv : FS -> Prop) (P : error -> Prop)
    (xs : list A) (body : A -> io unit) :
  (forall x (fs fs' : FS) r,
      In x xs -> Inv fs -> body x fs = (r, fs') ->
      Inv fs' /\ forall e, r = Err e -> P e) ->
  forall (fs fs' : FS) r,
    Inv fs -> io_for xs body fs = (r, fs') ->
    Inv fs' /\ forall e, r = Err e -> P e.
Proof.
  induction xs as [|x xs IH]; intros Hstep fs fs' r Hinv; simpl.
  - intros [= <- <-]. split; [exact Hinv|discriminate].
  - unfold io_bind. destruct (body x fs) as [[[]|e] fs1] eqn:E.
    + destruct (Hstep x fs fs1 _ (or_introl eq_refl) Hinv E) as [Hinv1 _].
      apply IH; [|exact Hinv1].
      intros y gs gs' s Hy. apply Hstep. now right.
    + intros [= <- <-].
      exact (Hstep x fs fs1 _ (or_introl eq_refl) Hinv E).
Qed.

(** What each step establishes, and later steps keep, holds for every
    item after a loop that succeeds. *)
Lemma io_for_post {A} (Q : A -> FS -> Prop)
    (xs : list A) (body : A -> io unit) :
  (forall x (fs fs' : FS), body x fs = (Ok tt, fs') -> Q x fs') ->
  (forall x y (fs fs' : FS) r, body y fs = (r, fs') -> Q x fs -> Q x fs') ->
  forall (fs fs' : FS),
    io_for xs body fs = (Ok tt, fs') -> forall x, In x xs -> Q x fs'.
Proof.
  intros Hdone Hkeep. induction xs as [|y xs IH]; intros fs fs'; simpl.
  - intros _ x [].
  - unfold io_bind. destruct (body y fs) as [[[]|e] fs1] eqn:E;
      [|discriminate].
    intros Hrest x [<-|Hin]; [|now apply (IH fs1)].
    apply Hdone in E.
    assert (forall (gs gs' : FS) r,
              io_for xs body gs = (r, gs') -> Q y gs -> Q y gs') as Hloop.
    { clear -Hkeep. induction xs as [|z xs IH]; intros gs gs' r; simpl.
      - now intros [= <- <-].
      - unfold io_bind. destruct (body z gs) as [[[]|e] gs1] eqn:F.
        + intros Hrest Hq. eapply IH; [exact Hrest|]. eapply Hkeep; eauto.
        + intros [= <- <-] Hq. eapply Hkeep; eauto. }
    eapply Hloop; eauto.
Qed.

Lemma io_bind_keeps_dirs {A B} (m : io A) (k : A -> io B) :
  keeps_dirs m -> (forall a, keeps_dirs (k a)) -> keeps_dirs (io_bind m k).
Proof.
  intros Hm Hk fs fs' r p. unfold io_bind.
  destruct (m fs) as [[a|e] fs1] eqn:E.
  - intros Hrun Hp. eapply Hk; [exact Hrun|]. eapply Hm; eauto.
  - intros [= <- <-] Hp. eapply Hm; eauto.
Qed.

Lemma io_for_keeps_dirs {A} (xs : list A) (body : A -> io unit) :
  (forall x, keeps_dirs (body x)) -> keeps_dirs (io_for xs body).
Proof.
  intros Hbody. induction xs as [|x xs IH]; simpl.
  - intros fs fs' r p [= <- <-]. tauto.
  - apply io_bind_keeps_dirs; [apply Hbody|]. intros _. exact IH.
Qed.

Lemma makedirs_keeps_dirs path : keeps_dirs (Os.makedirs_exist_ok path).
Proof.
  intros fs fs' r p. unfold Os.makedirs_exist_ok.
  destruct (fs !! path) as [[|data]|] eqn:L; intros [= <- <-]; try tauto.
  intros Hp. destruct (decide (path = p)) as [->|Hne]; [congruence|].
  now rewrite lookup_insert_ne.
Qed.

Lemma mkdir_keeps_dirs path : keeps_dirs (Os.mkdir path).
Proof.
  intros fs fs' r p. unfold Os.mkdir.
  destruct (fs !! path) eqn:L; intros [= <- <-]; try tauto.
  intros Hp. destruct (decide (path = p)) as [->|Hne]; [congruence|].
  now rewrite lookup_insert_ne.
Qed.

Lemma copy_keeps_dirs src dst : keeps_dirs (Os.copy src dst).
Proof.
  intros fs fs' r p. unfold Os.copy.
  destruct (fs !! src) as [[|data]|]; try (intros [= <- <-]; tauto).
  destruct (String.eqb _ _); [intros [= <- <-]; tauto|].
  set (dst' := match fs !! dst with
               | Some Dir => Path.join dst (Path.basename src)
               | _ => dst
               end).
  destruct (fs !! dst') as [[|data']|] eqn:L; intros [= <- <-]; try tauto;
    intros Hp; (destruct (decide (dst' = p)) as [->|Hne]; [congruence|]);
    now rewrite lookup_insert_ne.
Qed.

Lemma prepare_outdir_keeps_dirs outdir d : keeps_dirs (prepare_outdir outdir d).
Proof.
  apply io_bind_keeps_dirs; [apply makedirs_keeps_dirs|]. intros _.
  apply io_for_keeps_dirs. intros subdir. apply mkdir_keeps_dirs.
Qed.

Lemma split_images_keeps_dirs path_celeba outdir d workers :
  keeps_dirs (split_images path_celeba outdir d workers).
Proof.
  apply io_for_keeps_dirs. intros [subdir files]. unfold pool_imap.
  destruct (workers <? 1).
  - intros fs fs' r p [= <- <-]. tauto.
  - apply io_for_keeps_dirs. intros f. unfold CopyWorker_call.
    destruct (Path.splitext f). apply copy_keeps_dirs.
Qed.

Lemma write_output_keeps_dirs cmdargs split :
  keeps_dirs (write_output cmdargs split).
Proof.
  apply io_bind_keeps_dirs; [apply prepare_outdir_keeps_dirs|].
  intros _. apply split_images_keeps_dirs.
Qed.

Lemma write_output_preserves cmdargs split :
  preserves_paths (write_output cmdargs split).
Proof.
  apply io_bind_preserves; [apply prepare_outdir_preserves|].
  intros _. apply split_images_preserves.
Qed.

End LoopFacts.

(** X6. A run of [main] removes nothing: every path that exists before the
    run exists after it, whether the run succeeds or fails, and every
    directory is still a directory. *)
Theorem main_removes_nothing
    (load_celeba_attrs : FS -> string -> res AttrFrame)
    (load_celeba_partition : FS -> string -> res PartitionFrame)
    (cmdargs : CmdArgs) (fs fs' : FS) (r : res unit) :
  main load_celeba_attrs load_celeba_partition cmdargs fs = (r, fs') ->
  forall p,
    (is_Some (fs !! p) -> is_Some (fs' !! p))
    /\ (fs !! p = Some Dir -> fs' !! p = Some Dir).
Proof.
  intros Hrun p.
  destruct (main_phases _ _ _ _ _ _ Hrun)
    as [[-> _]|(split & _ & Hwrite)]; [tauto|].
  split; intros Hp.
  - eapply write_output_preserves; eauto.
  - eapply write_output_keeps_dirs; eauto.
Qed.

Lemma main_removes_nothing_witness :
  snd (main Sample.read_attrs Sample.read_partition (Sample.args "Male")
         Sample.fs_celeba) !! "img" = Some Dir.
Proof.
  apply (main_removes_nothing Sample.read_attrs Sample.read_partition
           (Sample.args "Male") Sample.fs_celeba _ _
           (surjective_pairing _) "img").
  reflexivity.
Defined.

(** ** The output tree *)

Section OutdirFacts.

Lemma append_inv_head p a b : p +:+ a = p +:+ b -> a = b.
Proof.
  induction p as [|c p IH]; [now rewrite !append_nil_l|].
  rewrite !append_cons. intros [= E]. now apply IH.
Qed.

Lemma append_assoc a b c : (a +:+ b) +:+ c = a +:+ (b +:+ c).
Proof.
  induction a as [|x a IH]; [reflexivity|].
  rewrite !append_cons. now rewrite IH.
Qed.

(** Joining a relative name puts the same prefix before it. *)
Lemma join_relative a b :
  Path.startswith_sep b = false -> Path.join a b = join_prefix a +:+ b.
Proof.
  intros Hrel. unfold Path.join, join_prefix. rewrite Hrel.
  destruct (orb _ _); [reflexivity|].
  rewrite append_assoc. reflexivity.
Qed.

Lemma join_prefix_length a :
  (String.length a <= String.length (join_prefix a))%nat.
Proof.
  unfold join_prefix. destruct (orb _ _); [lia|].
  rewrite length_append. lia.
Qed.

Lemma bucket_paths_distinct outdir (d : split_dict) :
  List.NoDup (map fst d) ->
  (forall k, In k (map fst d) ->
             k <> "" /\ Path.startswith_sep k = false) ->
  List.NoDup (bucket_paths outdir d) /\ ~ In outdir (bucket_paths outdir d).
Proof.
  intros Hnd Hrel. unfold bucket_paths. split.
  - apply Finite.Injective_map_NoDup_in; [|exact Hnd].
    intros x y Hx Hy.
    rewrite (join_relative _ _ (proj2 (Hrel x Hx))).
    rewrite (join_relative _ _ (proj2 (Hrel y Hy))).
    apply append_inv_head.
  - intros Hin. apply in_map_iff in Hin as (k & Hk & Hin).
    destruct (Hrel k Hin) as [Hne Hk'].
    rewrite (join_relative _ _ Hk') in Hk.
    apply (f_equal String.length) in Hk. rewrite length_append in Hk.
    pose proof (join_prefix_length outdir).
    destruct k; [now destruct Hne|]. cbn [String.length] in Hk. lia.
Qed.

(** Making directories at distinct free paths succeeds and changes
    nothing else. *)
Lemma mkdir_loop_fresh paths (fs : FS) :
  List.NoDup paths ->
  (forall p, In p paths -> fs !! p = None) ->
  exists fs' : FS,
    io_for paths Os.mkdir fs = (Ok tt, fs')
    /\ (forall p, In p paths -> fs' !! p = Some Dir)
    /\ (forall q, ~ In q paths -> fs' !! q = fs !! q).
Proof.
  revert fs. induction paths as [|p paths IH]; intros fs Hnd Hfree.
  - exists fs. simpl. repeat split; tauto.
  - inversion Hnd as [|? ? Hp Hrest]. subst.
    destruct (IH (<[p := Dir]> fs) Hrest) as (fs' & Hrun & Hmade & Hother).
    { intros q Hq. rewrite lookup_insert_ne; [apply Hfree; now right|].
      intros ->. contradiction. }
    exists fs'. simpl. unfold io_bind, Os.mkdir at 1.
    rewrite (Hfree p (or_introl eq_refl)).
    split; [exact Hrun|]. split.
    + intros q [<-|Hq]; [|now apply Hmade].
      rewrite (Hother p Hp). apply lookup_insert_eq.
    + intros q Hq. rewrite Hother by tauto.
      apply lookup_insert_ne. intros ->. apply Hq. now left.
Qed.

(** The only thing a loop of [mkdir] raises is the already-exists
    error of one of its paths, which is there when it stops. *)
Lemma mkdir_loop_error paths (fs fs' : FS) e :
  io_for paths Os.mkdir fs = (Err e, fs') ->
  exists p, In p paths /\ e = FileExistsError p /\ is_Some (fs' !! p).
Proof.
  revert fs. induction paths as [|p paths IH]; intros fs; simpl;
    [discriminate|].
  unfold io_bind, Os.mkdir at 1.
  destruct (fs !! p) as [n|] eqn:L.
  - intros [= <- <-]. exists p. rewrite L. eauto.
  - intros Hrest. destruct (IH _ Hrest) as (q & Hq & He & Hthere).
    exists q. eauto.
Qed.

Lemma mkdir_loop_made paths (fs fs' : FS) :
  io_for paths Os.mkdir fs = (Ok tt, fs') ->
  forall p, In p paths -> fs' !! p = Some Dir.
Proof.
  apply (io_for_post (fun p (gs : FS) => gs !! p = Some Dir)).
  - intros p gs gs'. unfold Os.mkdir.
    destruct (gs !! p); [discriminate|]. intros [= <-].
    apply lookup_insert_eq.
  - intros p q gs gs' r Hrun. now apply (mkdir_keeps_dirs q gs gs' r p).
Qed.

Lemma prepare_outdir_unfold outdir d :
  prepare_outdir outdir d
  = io_bind (Os.makedirs_exist_ok outdir)
            (fun _ => io_for (bucket_paths outdir d) Os.mkdir).
Proof.
  unfold prepare_outdir, bucket_paths.
  now rewrite (io_for_map (Path.join outdir)).
Qed.

Lemma prepare_outdir_Ok outdir d (fs fs' : FS) :
  prepare_outdir outdir d fs = (Ok tt, fs') ->
  fs' !! outdir = Some Dir
  /\ forall p, In p (bucket_paths outdir d) -> fs' !! p = Some Dir.
Proof.
  rewrite prepare_outdir_unfold. unfold io_bind.
  destruct (Os.makedirs_exist_ok outdir fs) as [[[]|e] fs1] eqn:E;
    [|discriminate].
  intros Hloop.
  assert (fs1 !! outdir = Some Dir) as Hroot.
  { unfold Os.makedirs_exist_ok in E.
    destruct (fs !! outdir) as [[|data]|] eqn:L; inversion E; subst;
      [exact L|apply lookup_insert_eq]. }
  split; [|now apply (mkdir_loop_made _ _ _ Hloop)].
  eapply (io_for_keeps_dirs (bucket_paths outdir d));
    [|exact Hloop|exact Hroot].
  intros p. apply mkdir_keeps_dirs.
Qed.

Lemma prepare_outdir_fresh (outdir : string) (d : split_dict)
    (fs : FS) :
  fs !! outdir = None \/ fs !! outdir = Some Dir ->
  List.NoDup (map fst d) ->
  (forall k, In k (map fst d) ->
             k <> "" /\ Path.startswith_sep k = false) ->
  (forall p, In p (bucket_paths outdir d) -> fs !! p = None) ->
  exists fs' : FS,
    prepare_outdir outdir d fs = (Ok tt, fs')
    /\ fs' !! outdir = Some Dir
    /\ (forall p, In p (bucket_paths outdir d) -> fs' !! p = Some Dir)
    /\ (forall q, q <> outdir -> ~ In q (bucket_paths outdir d) ->
                  fs' !! q = fs !! q).
Proof.
  intros Hroot Hnd Hrel Hfree.
  destruct (bucket_paths_distinct outdir d Hnd Hrel) as [Hpaths Hout].
  rewrite prepare_outdir_unfold. unfold io_bind, Os.makedirs_exist_ok.
  destruct Hroot as [Hroot|Hroot]; rewrite Hroot.
  - destruct (mkdir_loop_fresh (bucket_paths outdir d)
                (<[outdir := Dir]> fs) Hpaths)
      as (fs' & Hrun & Hmade & Hother).
    { intros p Hp. rewrite lookup_insert_ne; [now apply Hfree|].
      intros ->. contradiction. }
    exists fs'. split; [exact Hrun|]. split; [|split; [exact Hmade|]].
    + rewrite (Hother outdir Hout). apply lookup_insert_eq.
    + intros q Hq Hnot. rewrite (Hother q Hnot).
      now apply lookup_insert_ne.
  - destruct (mkdir_loop_fresh (bucket_paths outdir d) fs Hpaths Hfree)
      as (fs' & Hrun & Hmade & Hother).
    exists fs'. split; [exact Hrun|]. split; [|split; [exact Hmade|]].
    + now rewrite (Hother outdir Hout).
    + intros q _ Hnot. now apply Hother.
Qed.

End OutdirFacts.

Section PlainNames.

Lemma plain_name_relative k :
  plain_name k -> k <> "" /\ Path.startswith_sep k = false.
Proof.
  intros (Hne & Hsep & _). split; [exact Hne|].
  destruct k as [|a k]; [reflexivity|]. unfold occurs in Hsep. simpl in *.
  destruct (Ascii.eqb_spec a Path.sep) as [->|_];
    [exfalso; apply Hsep; now left|reflexivity].
Qed.

Ltac plain_name_closed :=
  unfold plain_name, occurs; simpl;
  repeat match goal with |- _ /\ _ => split end;
  try discriminate; try lia;
  let H := fresh "H" in
  intros H; repeat destruct H as [H|H]; try discriminate H; exact H.

Lemma plain_name_out : plain_name "out".
Proof. plain_name_closed. Qed.

Lemma BUCKETS_plain k : In k BUCKETS -> plain_name k.
Proof.
  intros Hk. simpl in Hk.
  destruct Hk as [<-|[<-|[<-|[<-|[<-|[<-|[]]]]]]]; plain_name_closed.
Qed.

End PlainNames.

(** X7. For an output root that is a plain name, absent or already a
    directory, and distinct plain bucket names whose paths under the
    root are free, [prepare_outdir] succeeds; afterwards the root and
    each bucket path are directories and every other path is as
    before. *)
Theorem prepare_outdir_makes_tree (outdir : string) (d : split_dict)
    (fs : FS) :
  plain_name outdir ->
  fs !! outdir = None \/ fs !! outdir = Some Dir ->
  List.NoDup (map fst d) ->
  (forall k, In k (map fst d) -> plain_name k) ->
  (forall p, In p (bucket_paths outdir d) -> fs !! p = None) ->
  exists fs' : FS,
    prepare_outdir outdir d fs = (Ok tt, fs')
    /\ fs' !! outdir = Some Dir
    /\ (forall p, In p (bucket_paths outdir d) -> fs' !! p = Some Dir)
    /\ (forall q, q <> outdir -> ~ In q (bucket_paths outdir d) ->
                  fs' !! q = fs !! q).
Proof.
  intros _ Hroot Hnd Hplain Hfree.
  apply prepare_outdir_fresh; try assumption.
  intros k Hk. apply plain_name_relative. now apply Hplain.
Qed.

Lemma prepare_outdir_makes_tree_witness :
  exists fs' : FS,
    prepare_outdir "out" Sample.empty_split Sample.fs_celeba = (Ok tt, fs')
    /\ fs' !! "out" = Some Dir
    /\ fs' !! "out/testA" = Some Dir
    /\ fs' !! "img/000001.png" = Some (File "image 1").
Proof.
  destruct (prepare_outdir_makes_tree "out" Sample.empty_split
              Sample.fs_celeba plain_name_out)
    as (fs' & Hrun & Hroot & Hmade & Hother).
  - left. reflexivity.
  - repeat constructor; simpl; intros H;
      repeat destruct H as [H|H]; try discriminate H; exact H.
  - intros k Hk. apply BUCKETS_plain. simpl in *. tauto.
  - intros p Hp. simpl in Hp.
    destruct Hp as [<-|[<-|[<-|[<-|[]]]]]; reflexivity.
  - exists fs'. split; [exact Hrun|]. split; [exact Hroot|]. split.
    + apply Hmade. simpl. tauto.
    + rewrite Hother; [reflexivity|discriminate|].
      simpl. intros H. repeat destruct H as [H|H]; try discriminate H; exact H.
Defined.

(** X8. For an output root and bucket names that are plain names,
    [prepare_outdir] raises nothing but the already-exists error: of
    the root, when the root is a regular file, and then nothing has
    changed; or of a bucket path, which is there when it stops. *)
Theorem prepare_outdir_errors (outdir : string) (d : split_dict)
    (fs fs' : FS) (e : error) :
  plain_name outdir ->
  (forall k, In k (map fst d) -> plain_name k) ->
  prepare_outdir outdir d fs = (Err e, fs') ->
  (e = FileExistsError outdir /\ fs' = fs
   /\ exists data, fs !! outdir = Some (File data))
  \/ (exists p, In p (bucket_paths outdir d)
                /\ e = FileExistsError p /\ is_Some (fs' !! p)).
Proof.
  intros _ _.
  rewrite prepare_outdir_unfold. unfold io_bind, Os.makedirs_exist_ok.
  destruct (fs !! outdir) as [[|data]|] eqn:L.
  - intros Hloop. right. now apply (mkdir_loop_error _ _ _ _ Hloop).
  - intros [= <- <-]. left. eauto.
  - intros Hloop. right. now apply (mkdir_loop_error _ _ _ _ Hloop).
Qed.

Lemma prepare_outdir_errors_witness :
  exists p,
    In p (bucket_paths "out" Sample.empty_split)
    /\ FileExistsError "out/trainB" = FileExistsError p.
Proof.
  destruct (prepare_outdir_errors "out" Sample.empty_split
              Sample.fs_root_trainB
              (<[ "out/trainA" := Dir ]> Sample.fs_root_trainB)
              (FileExistsError "out/trainB") plain_name_out)
    as [(E & _)|(p & Hp & He & _)].
  - intros k Hk. apply BUCKETS_plain. simpl in *. tauto.
  - vm_compute. reflexivity.
  - discriminate E.
  - exists p. split; [exact Hp|exact He].
Defined.

(** X9. [prepare_outdir] does not merge into its own output: called again
    with the same non-empty split on the tree it has just made, it
    raises the already-exists error of the first bucket path and
    changes nothing. *)
Theorem prepare_outdir_twice (outdir : string) (d : split_dict)
    (fs fs1 : FS) (k : string) (files : list string) (d' : split_dict) :
  d = (k, files) :: d' ->
  prepare_outdir outdir d fs = (Ok tt, fs1) ->
  prepare_outdir outdir d fs1
  = (Err (FileExistsError (Path.join outdir k)), fs1).
Proof.
  intros -> Hfirst. apply prepare_outdir_Ok in Hfirst as [Hroot Hmade].
  specialize (Hmade (Path.join outdir k) (or_introl eq_refl)).
  unfold prepare_outdir, io_bind, Os.makedirs_exist_ok. rewrite Hroot.
  simpl. unfold io_bind, Os.mkdir. now rewrite Hmade.
Qed.

Lemma prepare_outdir_twice_witness :
  prepare_outdir "out" Sample.empty_split
    (snd (prepare_outdir "out" Sample.empty_split Sample.fs_celeba))
  = (Err (FileExistsError "out/trainA"),
     snd (prepare_outdir "out" Sample.empty_split Sample.fs_celeba)).
Proof.
  apply (prepare_outdir_twice "out" Sample.empty_split Sample.fs_celeba
           _ "trainA" [] _ eq_refl).
  vm_compute. reflexivity.
Defined.

(** ** After the checks *)

Section WriteFacts.

Variable load_celeba_attrs : FS -> string -> res AttrFrame.
Variable load_celeba_partition : FS -> string -> res PartitionFrame.

Lemma main_after_checks cmdargs (fs : FS) split :
  checks_pass load_celeba_attrs load_celeba_partition cmdargs fs split ->
  main load_celeba_attrs load_celeba_partition cmdargs fs
  = write_output cmdargs split fs.
Proof.
  intros (Hfree & specs & images & Hload & Hattr & Hcollect & Himages
          & Hsplit & Hcount).
  unfold main, io_bind, Os.path_exists.
  rewrite bool_decide_eq_false_2
    by (rewrite Hfree; intros [? ?]; discriminate).
  rewrite Hload. unfold io_lift.
  now rewrite Hattr, Hcollect, Himages, Hsplit, Hcount.
Qed.

Lemma checks_pass_nonempty cmdargs (fs : FS) split :
  checks_pass load_celeba_attrs load_celeba_partition cmdargs fs split ->
  exists k files rest, split = (k, files) :: rest.
Proof.
  intros (_ & specs & images & _ & Hattr & _ & _ & Hsplit & _).
  apply validate_attr_valid_In in Hattr.
  rewrite (prepare_image_split_rowwise _ _ _ Hattr) in Hsplit.
  injection Hsplit as <-. destruct (separate_val cmdargs); eauto.
Qed.

Lemma copy_Ok_dst src dst (fs fs' : FS) :
  Os.copy src dst fs = (Ok tt, fs') -> is_Some (fs' !! dst).
Proof.
  unfold Os.copy.
  destruct (fs !! src) as [[|data]|]; try discriminate.
  destruct (String.eqb _ _); [discriminate|].
  destruct (fs !! dst) as [[|data']|] eqn:D.
  - destruct (fs !! Path.join dst (Path.basename src)) as [[|data']|].
    + discriminate.
    + intros [= <-]. apply insert_keeps_paths. rewrite D. eauto.
    + intros [= <-]. apply insert_keeps_paths. rewrite D. eauto.
  - rewrite D. intros [= <-]. rewrite lookup_insert_eq. eauto.
  - rewrite D. intros [= <-]. rewrite lookup_insert_eq. eauto.
Qed.

Lemma copy_found src dst (fs fs' : FS) e :
  is_Some (fs !! src) ->
  Os.copy src dst fs = (Err e, fs') -> forall p, e <> FileNotFoundError p.
Proof.
  intros [n Hn]. unfold Os.copy. rewrite Hn.
  set (dst' := match fs !! dst with
               | Some Dir => Path.join dst (Path.basename src)
               | _ => dst
               end).
  destruct n as [|data]; [now intros [= <- _]|].
  destruct (String.eqb _ _); [now intros [= <- _]|].
  destruct (fs !! dst') as [[|data']|]; try discriminate.
  now intros [= <- _].
Qed.

Lemma io_for_app {A} (xs ys : list A) (body : A -> io unit) (fs : FS) :
  io_for (xs ++ ys) body fs
  = io_bind (io_for xs body) (fun _ => io_for ys body) fs.
Proof.
  revert fs. induction xs as [|x xs IH]; intros fs.
  - simpl. unfold io_bind, io_ret. reflexivity.
  - simpl. unfold io_bind in *.
    destruct (body x fs) as [[[]|e] fs1]; [apply IH|reflexivity].
Qed.

End WriteFacts.

Section CopyFacts.

Lemma CopyWorker_call_Ok_dst self f (fs fs' : FS) :
  CopyWorker_call self f fs = (Ok tt, fs') ->
  is_Some (fs' !! Path.join (_root_dst self) (image_name f)).
Proof. rewrite CopyWorker_call_paths. apply copy_Ok_dst. Qed.

Lemma pool_imap_preserves workers self files :
  preserves_paths (pool_imap workers (CopyWorker_call self) files).
Proof.
  unfold pool_imap. destruct (workers <? 1).
  - intros fs fs' r p [= <- <-]. tauto.
  - apply io_for_preserves. intros f. apply CopyWorker_call_preserves.
Qed.

(** After a pool has run through, each file of the bucket has its
    destination. *)
Lemma pool_imap_Ok workers self files (fs fs' : FS) :
  pool_imap workers (CopyWorker_call self) files fs = (Ok tt, fs') ->
  forall f, In f files ->
    is_Some (fs' !! Path.join (_root_dst self) (image_name f)).
Proof.
  unfold pool_imap. destruct (workers <? 1); [discriminate|].
  apply (io_for_post
           (fun f (gs : FS) =>
              is_Some (gs !! Path.join (_root_dst self) (image_name f)))).
  - intros f gs gs'. apply CopyWorker_call_Ok_dst.
  - intros f g gs gs' r Hrun. eapply CopyWorker_call_preserves. exact Hrun.
Qed.

Lemma split_images_Ok path_celeba outdir d workers (fs fs' : FS) :
  split_images path_celeba outdir d workers fs = (Ok tt, fs') ->
  forall k files f,
    In (k, files) d -> In f files ->
    is_Some (fs' !! Path.join (Path.join outdir k) (image_name f)).
Proof.
  intros Hrun k files f Hbucket Hf. unfold split_images in Hrun.
  refine (io_for_post
            (fun (b : string * list string) (gs : FS) =>
               forall f, In f (snd b) ->
                 is_Some (gs !! Path.join (Path.join outdir (fst b))
                                          (image_name f)))
            d _ _ _ fs fs' Hrun (k, files) Hbucket f Hf).
  - intros [k' files'] gs gs' Hpool g Hg.
    exact (pool_imap_Ok _ _ _ _ _ Hpool g Hg).
  - intros b [k' files'] gs gs' r Hpool Hq g Hg.
    eapply pool_imap_preserves; [exact Hpool|]. now apply Hq.
Qed.

End CopyFacts.

(** X10. A run of [main] that succeeds has passed every check; afterwards
    the output root and each bucket's directory are directories, and
    for every label of every bucket the path of its image under the
    bucket's directory exists. *)
Theorem main_success_output
    (load_celeba_attrs : FS -> string -> res AttrFrame)
    (load_celeba_partition : FS -> string -> res PartitionFrame)
    (cmdargs : CmdArgs) (fs fs' : FS) :
  main load_celeba_attrs load_celeba_partition cmdargs fs = (Ok tt, fs') ->
  exists split,
    checks_pass load_celeba_attrs load_celeba_partition cmdargs fs split
    /\ fs' !! outdir cmdargs = Some Dir
    /\ (forall k, In k (map fst split) ->
                  fs' !! Path.join (outdir cmdargs) k = Some Dir)
    /\ (forall k files f,
          In (k, files) split -> In f files ->
          is_Some (fs' !! Path.join (Path.join (outdir cmdargs) k)
                                    (image_name f))).
Proof.
  intros Hrun.
  destruct (main_phases _ _ _ _ _ _ Hrun)
    as [(_ & e & He & _)|(split & Hpass & Hwrite)]; [discriminate|].
  exists split. split; [exact Hpass|].
  unfold write_output, io_bind in Hwrite.
  destruct (prepare_outdir (outdir cmdargs) split fs)
    as [[[]|e] fs1] eqn:Hprep; [|discriminate].
  apply prepare_outdir_Ok in Hprep as [Hroot Hmade].
  split; [|split].
  - eapply split_images_keeps_dirs; eauto.
  - intros k Hk. eapply split_images_keeps_dirs; [exact Hwrite|].
    apply Hmade. unfold bucket_paths. now apply in_map.
  - exact (split_images_Ok _ _ _ _ _ _ Hwrite).
Qed.

Lemma main_success_output_witness :
  is_Some (snd (main Sample.read_attrs Sample.read_partition
                  (Sample.args "Male") Sample.fs_celeba)
           !! "out/testB/000002.png").
Proof.
  destruct (main_success_output Sample.read_attrs Sample.read_partition
              (Sample.args "Male") Sample.fs_celeba
              (snd (main Sample.read_attrs Sample.read_partition
                      (Sample.args "Male") Sample.fs_celeba)))
    as (split & Hpass & _ & _ & Hfiles).
  - vm_compute. reflexivity.
  - destruct Hpass as (_ & specs & images & Hload & _ & _ & _ & Hsplit & _).
    injection Hload as <-. vm_compute in Hsplit. injection Hsplit as <-.
    apply (Hfiles "testB" ["000002.jpg"] "000002.jpg"); simpl; tauto.
Defined.

(** X11. The worker count is checked only by the pool: with every check
    passed and fewer than one worker, [main] makes the output
    directories and then raises the pool's error, nothing copied. *)
Theorem workers_checked_after_mkdir
    (load_celeba_attrs : FS -> string -> res AttrFrame)
    (load_celeba_partition : FS -> string -> res PartitionFrame)
    (cmdargs : CmdArgs) (fs fs1 : FS) (split : split_dict) :
  checks_pass load_celeba_attrs load_celeba_partition cmdargs fs split ->
  workers cmdargs < 1 ->
  prepare_outdir (outdir cmdargs) split fs = (Ok tt, fs1) ->
  main load_celeba_attrs load_celeba_partition cmdargs fs
  = (Err (PoolSizeError (workers cmdargs)), fs1)
  /\ fs !! outdir cmdargs = None
  /\ fs1 !! outdir cmdargs = Some Dir.
Proof.
  intros Hpass Hworkers Hprep.
  rewrite (main_after_checks _ _ _ _ _ Hpass).
  destruct (checks_pass_nonempty _ _ _ _ _ Hpass)
    as (k & files & rest & Hsplit).
  split; [|split].
  - unfold write_output, io_bind. rewrite Hprep. subst split.
    unfold split_images. cbn [io_for]. unfold io_bind, pool_imap, io_raise.
    apply Z.ltb_lt in Hworkers. now rewrite Hworkers.
  - exact (proj1 Hpass).
  - exact (proj1 (prepare_outdir_Ok _ _ _ _ Hprep)).
Qed.

Lemma workers_checked_after_mkdir_witness :
  exists fs1 : FS,
    main Sample.read_attrs Sample.read_partition
         (mkArgs "list_attr_celeba.txt" "list_eval_partition.txt" "Male"
                 false 0 "img" "out")
         Sample.fs_celeba
    = (Err (PoolSizeError 0), fs1)
    /\ fs1 !! "out" = Some Dir.
Proof.
  set (cmdargs := mkArgs "list_attr_celeba.txt" "list_eval_partition.txt"
                         "Male" false 0 "img" "out").
  set (split := [ ("trainA", ["000001.jpg"]); ("trainB", []);
                  ("testA", ["000003.jpg"]); ("testB", ["000002.jpg"]) ]).
  assert (checks_pass Sample.read_attrs Sample.read_partition cmdargs
            Sample.fs_celeba split) as Hpass.
  { split; [reflexivity|].
    eexists _, _. repeat split; vm_compute; reflexivity. }
  destruct (workers_checked_after_mkdir
              Sample.read_attrs Sample.read_partition cmdargs
              Sample.fs_celeba
              (snd (prepare_outdir "out" split Sample.fs_celeba)) split
              Hpass) as (Hrun & _ & Hroot).
  - reflexivity.
  - vm_compute. reflexivity.
  - eexists. split; [exact Hrun|exact Hroot].
Defined.

(** ** Every image is there when it is copied *)

Section SourcesExist.

Variable load_celeba_attrs : FS -> string -> res AttrFrame.
Variable load_celeba_partition : FS -> string -> res PartitionFrame.

Lemma not_occurs_startswith name :
  ~ occurs Path.sep name -> Path.startswith_sep name = false.
Proof.
  destruct name as [|a name]; [reflexivity|]. unfold occurs. simpl.
  intros Hno. destruct (Ascii.eqb_spec a Path.sep) as [->|_];
    [exfalso; apply Hno; now left|reflexivity].
Qed.

(** The path that [os.listdir] lists an entry under is the path that
    [os.path.join] gives the copy worker. *)
Lemma join_listed root name :
  root <> "" -> ~ occurs Path.sep name ->
  Path.join root name = Os.dir_prefix root +:+ name.
Proof.
  intros Hroot Hname. unfold Path.join, Os.dir_prefix.
  rewrite (not_occurs_startswith _ Hname).
  destruct (String.eqb_spec root "") as [E|_]; [contradiction|].
  simpl orb. destruct (Path.endswith_sep root); [reflexivity|].
  rewrite append_assoc. reflexivity.
Qed.

Lemma bucket_labels_in_index specs attr separate_val split k files f :
  prepare_image_split specs attr separate_val = Ok split ->
  In (k, files) split -> In f files -> In f (index specs).
Proof.
  intros Hsplit Hbucket Hf.
  assert (In f (all_buckets split)) as Hall.
  { unfold all_buckets. apply in_concat. exists files.
    split; [|exact Hf]. now apply (in_map snd) in Hbucket. }
  apply (Permutation_in _ (buckets_are_splittable_rows _ _ _ _ Hsplit))
    in Hall.
  apply in_map_iff in Hall as (r & <- & Hr).
  apply filter_In in Hr as [Hr _]. unfold index. now apply in_map.
Qed.

(** Once the checks have passed, the image of every label of every
    bucket is in the source directory. *)
Lemma sources_exist cmdargs (fs : FS) split :
  checks_pass load_celeba_attrs load_celeba_partition cmdargs fs split ->
  path_celeba cmdargs <> "" ->
  forall k files f,
    In (k, files) split -> In f files ->
    is_Some (fs !! Path.join (path_celeba cmdargs) (image_name f)).
Proof.
  intros (_ & specs & images & _ & _ & Hcollect & Himages & Hsplit & _)
         Hroot k files f Hbucket Hf.
  pose proof (bucket_labels_in_index _ _ _ _ _ _ _ Hsplit Hbucket Hf) as Hin.
  destruct (collect_celeba_images_Ok _ _ _ _ Hcollect)
    as (_ & _ & _ & Hnd & _ & Hlisted).
  apply (Permutation_in _
           (Permutation_sym (entries_match_index _ _ Himages Hnd))) in Hin.
  apply in_map_iff in Hin as (image & <- & Himage).
  apply validate_images_Ok in Himages as [_ Hall].
  rewrite List.Forall_forall in Hall.
  rewrite (image_name_entry_index _ (proj1 (Hall image Himage))).
  destruct (Hlisted image Himage) as (Hthere & _ & Hsep).
  now rewrite (join_listed _ _ Hroot Hsep).
Qed.

Lemma prepare_outdir_raises_exists outdir d (fs fs' : FS) e :
  prepare_outdir outdir d fs = (Err e, fs') ->
  exists p, e = FileExistsError p.
Proof.
  rewrite prepare_outdir_unfold. unfold io_bind, Os.makedirs_exist_ok.
  destruct (fs !! outdir) as [[|data]|].
  - intros Hloop. destruct (mkdir_loop_error _ _ _ _ Hloop) as (p & _ & -> & _).
    eauto.
  - intros [= <- _]. eauto.
  - intros Hloop. destruct (mkdir_loop_error _ _ _ _ Hloop) as (p & _ & -> & _).
    eauto.
Qed.

Lemma write_output_finds_images cmdargs (fs fs' : FS) split e :
  checks_pass load_celeba_attrs load_celeba_partition cmdargs fs split ->
  path_celeba cmdargs <> "" ->
  write_output cmdargs split fs = (Err e, fs') ->
  forall p, e <> FileNotFoundError p.
Proof.
  intros Hpass Hroot. pose proof (sources_exist _ _ _ Hpass Hroot) as Hsrc.
  unfold write_output, io_bind.
  destruct (prepare_outdir (outdir cmdargs) split fs)
    as [[[]|e1] fs1] eqn:Hprep.
  2:{ intros [= <- _] p.
      destruct (prepare_outdir_raises_exists _ _ _ _ _ Hprep) as [q ->].
      discriminate. }
  set (Inv := fun gs : FS =>
                forall k files f, In (k, files) split -> In f files ->
                  is_Some (gs !! Path.join (path_celeba cmdargs)
                                           (image_name f))).
  assert (Inv fs1) as Hinv1.
  { intros k files f Hb Hf.
    eapply prepare_outdir_preserves; [exact Hprep|]. eapply Hsrc; eauto. }
  intros Hcopy. unfold split_images in Hcopy.
  refine (proj2 (io_for_inv Inv (fun e => forall p, e <> FileNotFoundError p)
                   split _ _ fs1 fs' (Err e) Hinv1 Hcopy) e eq_refl).
  intros [k files] gs gs' r Hbucket Hinv. unfold pool_imap.
  destruct (workers cmdargs <? 1).
  { intros [= <- <-]. split; [exact Hinv|]. intros e' [= <-] p. discriminate. }
  apply (io_for_inv Inv); [|exact Hinv].
  intros f hs hs' s Hf Hh Hstep. split.
  - intros k' files' f' Hb' Hf'.
    eapply CopyWorker_call_preserves; [exact Hstep|]. eapply Hh; eauto.
  - intros e' ->. rewrite CopyWorker_call_paths in Hstep.
    eapply copy_found; [|exact Hstep]. cbn [_root_src]. eapply Hh; eauto.
Qed.

End SourcesExist.

(** X12. With a non-empty source path, an output root that is a plain
    name and a source directory whose entries are regular files, a
    not-found error of [main] comes from the checks only, from reading
    a metadata file or listing the source directory, and leaves the
    file system untouched: once the checks have passed, no copy finds
    its image missing. *)
Theorem missing_file_only_before_copying
    (load_celeba_attrs : FS -> string -> res AttrFrame)
    (load_celeba_partition : FS -> string -> res PartitionFrame)
    (cmdargs : CmdArgs) (fs fs' : FS) (p : string) :
  path_celeba cmdargs <> "" ->
  plain_name (outdir cmdargs) ->
  (forall images image,
      collect_celeba_images (path_celeba cmdargs) fs = (Ok images, fs) ->
      In image images ->
      exists data,
        fs !! Path.join (path_celeba cmdargs) image = Some (File data)) ->
  main load_celeba_attrs load_celeba_partition cmdargs fs
  = (Err (FileNotFoundError p), fs') ->
  fs' = fs
  /\ forall split,
       ~ checks_pass load_celeba_attrs load_celeba_partition cmdargs fs split.
Proof.
  intros Hroot _ _ Hrun.
  destruct (main_phases _ _ _ _ _ _ Hrun)
    as [(Hsame & e & _ & Hfail)|(d & Hpass & Hwrite)];
    [split; assumption|].
  exfalso.
  exact (write_output_finds_images _ _ _ _ _ _ _ Hpass Hroot Hwrite p eq_refl).
Qed.

Lemma missing_file_only_before_copying_witness :
  let no_attrs (fs : FS) (path : string) : res AttrFrame :=
    Err (FileNotFoundError path) in
  main no_attrs Sample.read_partition (Sample.args "Male") Sample.fs_celeba
  = (Err (FileNotFoundError "list_attr_celeba.txt"), Sample.fs_celeba)
  /\ forall split,
       ~ checks_pass no_attrs Sample.read_partition
           (Sample.args "Male") Sample.fs_celeba split.
Proof.
  intros no_attrs.
  assert (main no_attrs Sample.read_partition (Sample.args "Male")
            Sample.fs_celeba
          = (Err (FileNotFoundError "list_attr_celeba.txt"),
             Sample.fs_celeba)) as Hrun
    by (vm_compute; reflexivity).
  split; [exact Hrun|].
  assert (path_celeba (Sample.args "Male") <> "") as Hroot by discriminate.
  assert (forall images image,
            collect_celeba_images (path_celeba (Sample.args "Male"))
              Sample.fs_celeba = (Ok images, Sample.fs_celeba) ->
            In image images ->
            exists data,
              Sample.fs_celeba
                !! Path.join (path_celeba (Sample.args "Male")) image
              = Some (File data)) as Hfiles.
  { intros images image Hc Hin.
    assert (images = ["000001.png"; "000002.png"; "000003.png"]) as ->.
    { assert (collect_celeba_images (path_celeba (Sample.args "Male"))
                Sample.fs_celeba
              = (Ok ["000001.png"; "000002.png"; "000003.png"],
                 Sample.fs_celeba)) as E by (vm_compute; reflexivity).
      rewrite E in Hc. now injection Hc as <-. }
    simpl in Hin. destruct Hin as [<-|[<-|[<-|[]]]];
      eexists; vm_compute; reflexivity. }
  exact (proj2 (missing_file_only_before_copying
                  no_attrs Sample.read_partition
                  (Sample.args "Male") Sample.fs_celeba Sample.fs_celeba
                  "list_attr_celeba.txt" Hroot plain_name_out Hfiles Hrun)).
Defined.

(** ** A run that succeeds *)

Section FlatLoop.

Lemma io_for_ext {A} (xs : list A) (body body' : A -> io unit) :
  (forall x, body x = body' x) -> io_for xs body = io_for xs body'.
Proof.
  intros Hext. induction xs as [|x xs IH]; [reflexivity|].
  simpl. now rewrite Hext, IH.
Qed.

Lemma In_copy_items d k f :
  In (k, f) (copy_items d) <-> exists files, In (k, files) d /\ In f files.
Proof.
  unfold copy_items. rewrite in_flat_map. split.
  - intros ([k' files] & Hb & Hin). simpl in Hin.
    apply in_map_iff in Hin as (f' & [= <- <-] & Hf). eauto.
  - intros (files & Hb & Hf). exists (k, files). split; [exact Hb|].
    simpl. now apply in_map.
Qed.

(** With at least one worker the nested loops of [split_images] are
    one loop over the copies. *)
Lemma split_images_flat path_celeba outdir d workers (fs : FS) :
  1 <= workers ->
  split_images path_celeba outdir d workers fs
  = io_for (copy_items d)
      (fun i => Os.copy (copy_src path_celeba (snd i))
                        (copy_dst outdir (fst i) (snd i))) fs.
Proof.
  intros Hworkers. unfold split_images, pool_imap.
  destruct (Z.ltb_spec workers 1) as [|_]; [lia|]. revert fs.
  induction d as [|[k files] d IH]; intros fs; [reflexivity|].
  cbn [io_for copy_items flat_map fst snd].
  rewrite io_for_app. unfold io_bind.
  rewrite io_for_map. cbn [fst snd].
  rewrite (io_for_ext files _
             (fun f => Os.copy (copy_src path_celeba f) (copy_dst outdir k f)))
    by (intros f; apply CopyWorker_call_paths).
  destruct (io_for files _ fs) as [[[]|e] fs1]; [apply IH|reflexivity].
Qed.

End FlatLoop.

Section BucketPaths.

Lemma BUCKETS_shape k :
  In k BUCKETS ->
  k <> "" /\ Path.startswith_sep k = false /\ Path.endswith_sep k = false.
Proof.
  intros Hk. simpl in Hk.
  destruct Hk as [<-|[<-|[<-|[<-|[<-|[<-|[]]]]]]];
    (split; [discriminate|split; reflexivity]).
Qed.

Lemma prepare_image_split_Ok_In specs attr separate_val d :
  prepare_image_split specs attr separate_val = Ok d ->
  In attr (columns specs).
Proof.
  intros Hsplit.
  destruct (in_dec string_dec attr (columns specs)) as [Hin|Hout];
    [exact Hin|].
  unfold prepare_image_split in Hsplit.
  rewrite (prepare_single_split_no_attr specs attr "train") in Hsplit;
    [discriminate|simpl; tauto|exact Hout].
Qed.

Lemma split_names specs attr separate_val d :
  prepare_image_split specs attr separate_val = Ok d ->
  List.NoDup (map fst d) /\ forall k, In k (map fst d) -> In k BUCKETS.
Proof.
  intros Hsplit.
  pose proof (prepare_image_split_Ok_In _ _ _ _ Hsplit) as Hattr.
  rewrite (prepare_image_split_rowwise _ _ _ Hattr) in Hsplit.
  injection Hsplit as <-. destruct separate_val; cbn [map fst]; split.
  - repeat constructor; simpl; intros H;
      repeat destruct H as [H|H]; try discriminate H; exact H.
  - intros k Hk. simpl in *. tauto.
  - repeat constructor; simpl; intros H;
      repeat destruct H as [H|H]; try discriminate H; exact H.
  - intros k Hk. simpl in *. tauto.
Qed.

Lemma endswith_sep_append p k :
  k <> "" -> Path.endswith_sep (p +:+ k) = Path.endswith_sep k.
Proof.
  intros Hk. induction p as [|a p IH]; [reflexivity|].
  rewrite append_cons. cbn [Path.endswith_sep].
  destruct (p +:+ k) as [|b s] eqn:E; [|exact IH].
  exfalso. apply (f_equal String.length) in E.
  rewrite length_append in E. destruct k; [now destruct Hk|].
  cbn [String.length] in E. lia.
Qed.

Lemma append_nonempty p k : k <> "" -> p +:+ k <> "".
Proof.
  intros Hk E. apply (f_equal String.length) in E.
  rewrite length_append in E. destruct k; [now destruct Hk|].
  cbn [String.length] in E. lia.
Qed.

(** The destination of a copy, spelled out. *)
Lemma copy_dst_shape outdir k f :
  In k BUCKETS -> ~ occurs Path.sep (image_name f) ->
  copy_dst outdir k f
  = join_prefix outdir +:+ (k +:+ String Path.sep (image_name f)).
Proof.
  intros Hk Hsep. destruct (BUCKETS_shape k Hk) as (Hne & Hstart & Hend).
  unfold copy_dst.
  rewrite (join_relative _ _ (not_occurs_startswith _ Hsep)).
  rewrite (join_relative _ _ Hstart). unfold join_prefix at 1.
  rewrite (endswith_sep_append _ _ Hne), Hend.
  destruct (String.eqb_spec (join_prefix outdir +:+ k) "") as [E|_];
    [now apply append_nonempty in E|].
  cbn [orb]. rewrite !append_assoc. reflexivity.
Qed.

Lemma copy_dst_inj outdir k k' f f' :
  In k BUCKETS -> In k' BUCKETS ->
  ~ occurs Path.sep (image_name f) -> ~ occurs Path.sep (image_name f') ->
  copy_dst outdir k f = copy_dst outdir k' f' ->
  image_name f = image_name f'.
Proof.
  intros Hk Hk' Hf Hf' E.
  rewrite (copy_dst_shape _ _ _ Hk Hf), (copy_dst_shape _ _ _ Hk' Hf') in E.
  apply append_inv_head in E. simpl in Hk, Hk'.
  destruct Hk as [<-|[<-|[<-|[<-|[<-|[<-|[]]]]]]];
    destruct Hk' as [<-|[<-|[<-|[<-|[<-|[<-|[]]]]]]];
    cbv [String.append] in E; congruence.
Qed.

Lemma copy_dst_not_bucket outdir (d : split_dict) k f :
  (forall k', In k' (map fst d) -> In k' BUCKETS) ->
  In k BUCKETS -> ~ occurs Path.sep (image_name f) ->
  ~ In (copy_dst outdir k f) (bucket_paths outdir d).
Proof.
  intros Hnames Hk Hf Hin. unfold bucket_paths in Hin.
  apply in_map_iff in Hin as (k' & E & Hk'). apply Hnames in Hk'.
  rewrite (copy_dst_shape _ _ _ Hk Hf) in E.
  rewrite (join_relative _ _ (proj1 (proj2 (BUCKETS_shape k' Hk')))) in E.
  apply append_inv_head in E. simpl in Hk, Hk'.
  destruct Hk as [<-|[<-|[<-|[<-|[<-|[<-|[]]]]]]];
    destruct Hk' as [<-|[<-|[<-|[<-|[<-|[<-|[]]]]]]];
    cbv [String.append] in E; congruence.
Qed.

Lemma copy_dst_not_root outdir k f :
  In k BUCKETS -> ~ occurs Path.sep (image_name f) ->
  copy_dst outdir k f <> outdir.
Proof.
  intros Hk Hf E. rewrite (copy_dst_shape _ _ _ Hk Hf) in E.
  apply (f_equal String.length) in E. rewrite !length_append in E.
  cbn [String.length] in E. pose proof (join_prefix_length outdir). lia.
Qed.

End BucketPaths.

Section CopyLoop.

Variables root out : string.
Variable d : split_dict.
Variables fs fs1 : FS.

Hypothesis names_known : forall k, In k (map fst d) -> In k BUCKETS.
Hypothesis names_plain :
  forall k f, In (k, f) (copy_items d) -> ~ occurs Path.sep (image_name f).
Hypothesis sources_are_files :
  forall k f, In (k, f) (copy_items d) ->
    exists data, fs !! copy_src root f = Some (File data).
Hypothesis destinations_free :
  forall k f, In (k, f) (copy_items d) -> fs !! copy_dst out k f = None.
Hypothesis root_free : fs !! out = None.
Hypothesis buckets_free :
  forall p, In p (bucket_paths out d) -> fs !! p = None.
Hypothesis tree_made :
  forall q, q <> out -> ~ In q (bucket_paths out d) -> fs1 !! q = fs !! q.

Lemma item_bucket k f : In (k, f) (copy_items d) -> In k BUCKETS.
Proof.
  intros Hin. apply In_copy_items in Hin as (files & Hb & _).
  apply names_known. now apply (in_map fst) in Hb.
Qed.

Lemma src_not_dst k f k' f' :
  In (k, f) (copy_items d) -> In (k', f') (copy_items d) ->
  copy_src root f <> copy_dst out k' f'.
Proof.
  intros Hi Hj E. destruct (sources_are_files _ _ Hi) as [data Hsrc].
  rewrite E, (destinations_free _ _ Hj) in Hsrc. discriminate.
Qed.

Lemma src_after_mkdir k f :
  In (k, f) (copy_items d) ->
  fs1 !! copy_src root f = fs !! copy_src root f.
Proof.
  intros Hi. destruct (sources_are_files _ _ Hi) as [data Hsrc].
  apply tree_made.
  - intros E. rewrite E, root_free in Hsrc. discriminate.
  - intros Hin. rewrite (buckets_free _ Hin) in Hsrc. discriminate.
Qed.

Lemma dst_after_mkdir k f :
  In (k, f) (copy_items d) -> fs1 !! copy_dst out k f = None.
Proof.
  intros Hi. rewrite tree_made; [now apply (destinations_free k)|..].
  - apply copy_dst_not_root; [now apply (item_bucket k f)|].
    now apply (names_plain k).
  - apply copy_dst_not_bucket; [exact names_known|now apply (item_bucket k f)|].
    now apply (names_plain k).
Qed.

Lemma same_dst_same_src k f k' f' :
  In (k, f) (copy_items d) -> In (k', f') (copy_items d) ->
  copy_dst out k f = copy_dst out k' f' ->
  copy_src root f = copy_src root f'.
Proof.
  intros Hi Hj E. unfold copy_src. f_equal.
  apply (copy_dst_inj out k k' f f'); eauto using item_bucket, names_plain.
Qed.

Lemma copying_start : copying root out d fs fs1 fs1.
Proof.
  split; [reflexivity|]. intros k f Hi. left. now apply dst_after_mkdir.
Qed.

Lemma copy_step (gs : FS) k f :
  copying root out d fs fs1 gs -> In (k, f) (copy_items d) ->
  exists data,
    fs !! copy_src root f = Some (File data)
    /\ Os.copy (copy_src root f) (copy_dst out k f) gs
       = (Ok tt, <[copy_dst out k f := File data]> gs).
Proof.
  intros [Hother Hdst] Hi.
  destruct (sources_are_files _ _ Hi) as [data Hsrc].
  exists data. split; [exact Hsrc|].
  assert (gs !! copy_src root f = Some (File data)) as Hgs.
  { rewrite Hother; [now rewrite (src_after_mkdir k)|].
    intros k' f' Hj. now apply (src_not_dst k f). }
  assert (gs !! copy_dst out k f = None
          \/ gs !! copy_dst out k f = Some (File data)) as Hcur.
  { destruct (Hdst _ _ Hi) as [H|H]; [now left|right; congruence]. }
  unfold Os.copy. rewrite Hgs.
  assert (String.eqb (copy_src root f) (copy_dst out k f) = false) as Hne.
  { apply String.eqb_neq. now apply (src_not_dst k f). }
  destruct Hcur as [Hcur|Hcur]; rewrite Hcur, Hne, Hcur; reflexivity.
Qed.

Lemma copy_step_keeps (gs : FS) k f data :
  copying root out d fs fs1 gs -> In (k, f) (copy_items d) ->
  fs !! copy_src root f = Some (File data) ->
  copying root out d fs fs1 (<[copy_dst out k f := File data]> gs).
Proof.
  intros [Hother Hdst] Hi Hsrc. split.
  - intros q Hq. rewrite lookup_insert_ne; [now apply Hother|].
    intros E. now apply (Hq k f).
  - intros k' f' Hj.
    destruct (decide (copy_dst out k f = copy_dst out k' f')) as [E|Hne].
    + right. rewrite <- E, lookup_insert_eq.
      now rewrite <- (same_dst_same_src _ _ _ _ Hi Hj E).
    + rewrite lookup_insert_ne by exact Hne. now apply Hdst.
Qed.

Lemma copy_loop todo :
  incl todo (copy_items d) ->
  forall gs : FS,
    copying root out d fs fs1 gs ->
    exists gs' : FS,
      io_for todo
        (fun i => Os.copy (copy_src root (snd i))
                          (copy_dst out (fst i) (snd i))) gs
      = (Ok tt, gs')
      /\ copying root out d fs fs1 gs'
      /\ (forall k f, In (k, f) (copy_items d) ->
            gs !! copy_dst out k f = fs !! copy_src root f ->
            gs' !! copy_dst out k f = fs !! copy_src root f)
      /\ (forall k f, In (k, f) todo ->
            gs' !! copy_dst out k f = fs !! copy_src root f).
Proof.
  induction todo as [|[k f] todo IH]; intros Hincl gs Hinv.
  - exists gs. simpl. unfold io_ret. repeat split; try tauto.
    + apply Hinv.
    + apply Hinv.
  - assert (In (k, f) (copy_items d)) as Hi by (apply Hincl; now left).
    destruct (copy_step gs k f Hinv Hi) as (data & Hsrc & Hstep).
    pose proof (copy_step_keeps gs k f data Hinv Hi Hsrc) as Hinv1.
    destruct (IH (fun i Hin => Hincl i (or_intror Hin)) _ Hinv1)
      as (gs' & Hrun & Hinv' & Hkeep & Hdone).
    exists gs'. split; [|split; [exact Hinv'|split]].
    + cbn [io_for fst snd]. unfold io_bind. cbn [fst snd]. now rewrite Hstep.
    + intros k' f' Hj Hcur. apply Hkeep; [exact Hj|].
      destruct (decide (copy_dst out k f = copy_dst out k' f')) as [E|Hne].
      * rewrite <- E, lookup_insert_eq.
        now rewrite <- (same_dst_same_src _ _ _ _ Hi Hj E).
      * now rewrite lookup_insert_ne.
    + intros k' f' [[= <- <-]|Hj]; [|now apply Hdone].
      apply Hkeep; [exact Hi|]. now rewrite lookup_insert_eq.
Qed.

Lemma copies_all :
  exists fs' : FS,
    io_for (copy_items d)
      (fun i => Os.copy (copy_src root (snd i))
                        (copy_dst out (fst i) (snd i))) fs1
    = (Ok tt, fs')
    /\ (forall k f, In (k, f) (copy_items d) ->
          fs' !! copy_dst out k f = fs !! copy_src root f)
    /\ (forall q,
          (forall k f, In (k, f) (copy_items d) -> q <> copy_dst out k f) ->
          fs' !! q = fs1 !! q).
Proof.
  destruct (copy_loop (copy_items d) (fun i H => H) fs1 copying_start)
    as (fs' & Hrun & [Hother _] & _ & Hdone).
  exists fs'. split; [exact Hrun|]. split; [exact Hdone|exact Hother].
Qed.

End CopyLoop.

Section WholeRun.

Variable load_celeba_attrs : FS -> string -> res AttrFrame.
Variable load_celeba_partition : FS -> string -> res PartitionFrame.

(** After the checks, the file name of every label of every bucket is
    a listed entry, so it holds no separator. *)
Lemma bucket_images_plain cmdargs (fs : FS) split :
  checks_pass load_celeba_attrs load_celeba_partition cmdargs fs split ->
  forall k files f,
    In (k, files) split -> In f files -> ~ occurs Path.sep (image_name f).
Proof.
  intros (_ & specs & images & _ & _ & Hcollect & Himages & Hsplit & _)
         k files f Hbucket Hf.
  pose proof (bucket_labels_in_index _ _ _ _ _ _ _ Hsplit Hbucket Hf) as Hin.
  destruct (collect_celeba_images_Ok _ _ _ _ Hcollect)
    as (_ & _ & _ & Hnd & _ & Hlisted).
  apply (Permutation_in _
           (Permutation_sym (entries_match_index _ _ Himages Hnd))) in Hin.
  apply in_map_iff in Hin as (image & <- & Himage).
  apply validate_images_Ok in Himages as [_ Hall].
  rewrite List.Forall_forall in Hall.
  rewrite (image_name_entry_index _ (proj1 (Hall image Himage))).
  exact (proj2 (proj2 (Hlisted image Himage))).
Qed.

Lemma main_copies cmdargs (fs : FS) split :
  checks_pass load_celeba_attrs load_celeba_partition cmdargs fs split ->
  1 <= workers cmdargs ->
  (forall k files f,
      In (k, files) split -> In f files ->
      (exists data,
          fs !! copy_src (path_celeba cmdargs) f = Some (File data))
      /\ fs !! copy_dst (outdir cmdargs) k f = None) ->
  (forall p, In p (bucket_paths (outdir cmdargs) split) -> fs !! p = None) ->
  exists fs' : FS,
    main load_celeba_attrs load_celeba_partition cmdargs fs = (Ok tt, fs')
    /\ fs' !! outdir cmdargs = Some Dir
    /\ (forall p, In p (bucket_paths (outdir cmdargs) split) ->
                  fs' !! p = Some Dir)
    /\ (forall k files f,
          In (k, files) split -> In f files ->
          fs' !! copy_dst (outdir cmdargs) k f
          = fs !! copy_src (path_celeba cmdargs) f)
    /\ (forall q,
          q <> outdir cmdargs ->
          ~ In q (bucket_paths (outdir cmdargs) split) ->
          (forall k files f, In (k, files) split -> In f files ->
                             q <> copy_dst (outdir cmdargs) k f) ->
          fs' !! q = fs !! q).
Proof.
  intros Hpass Hworkers Hfiles Hbuckets.
  pose proof (bucket_images_plain _ _ _ Hpass) as Hplain.
  pose proof Hpass as (Hroot & specs & images & _ & _ & _ & _ & Hsplit & _).
  destruct (split_names _ _ _ _ Hsplit) as [Hnd Hnames].
  destruct (prepare_outdir_fresh (outdir cmdargs) split fs
              (or_introl Hroot) Hnd) as (fs1 & Hprep & Hroot1 & Hmade & Hother).
  { intros k Hk. destruct (BUCKETS_shape k (Hnames k Hk)) as (? & ? & _).
    now split. }
  { exact Hbuckets. }
  destruct (copies_all (path_celeba cmdargs) (outdir cmdargs) split fs fs1)
    as (fs' & Hrun & Hdone & Hrest); try assumption.
  { intros k f Hi. apply In_copy_items in Hi as (files & Hb & Hf). eauto. }
  { intros k f Hi. apply In_copy_items in Hi as (files & Hb & Hf).
    exact (proj1 (Hfiles _ _ _ Hb Hf)). }
  { intros k f Hi. apply In_copy_items in Hi as (files & Hb & Hf).
    exact (proj2 (Hfiles _ _ _ Hb Hf)). }
  assert (forall k f, In (k, f) (copy_items split) ->
            In k BUCKETS /\ ~ occurs Path.sep (image_name f)) as Hitem.
  { intros k f Hi. apply In_copy_items in Hi as (files & Hb & Hf). split.
    - apply Hnames. now apply (in_map fst) in Hb.
    - eauto. }
  exists fs'. split; [|split; [|split; [|split]]].
  - rewrite (main_after_checks _ _ _ _ _ Hpass).
    unfold write_output, io_bind. rewrite Hprep.
    now rewrite split_images_flat.
  - rewrite Hrest; [exact Hroot1|].
    intros k f Hi E. destruct (Hitem _ _ Hi) as [Hk Hf].
    symmetry in E. now apply copy_dst_not_root in E.
  - intros p Hp. rewrite Hrest; [now apply Hmade|].
    intros k f Hi ->. destruct (Hitem _ _ Hi) as [Hk Hf].
    now apply (copy_dst_not_bucket (outdir cmdargs) split k f Hnames Hk Hf).
  - intros k files f Hb Hf. apply Hdone. apply In_copy_items. eauto.
  - intros q Hq Hnot Hdst. rewrite Hrest; [now apply Hother|].
    intros k f Hi. apply In_copy_items in Hi as (files & Hb & Hf). eauto.
Qed.

End WholeRun.

(** X14. Take a partition list of at least one line, a non-empty
    source path and an output root that is a plain name.  When the
    checks pass, there is at least one worker, every image to copy is a
    regular file and no bucket directory and no destination exists yet,
    the run succeeds: the output root and the bucket directories are
    made, each label's image is written under its bucket with the
    content of the source image, and every other path is as before. *)
Theorem main_copies_every_image
    (load_celeba_attrs : FS -> string -> res AttrFrame)
    (load_celeba_partition : FS -> string -> res PartitionFrame)
    (cmdargs : CmdArgs) (fs : FS) (split : split_dict) :
  load_celeba_partition fs (path_part cmdargs) <> Ok [] ->
  path_celeba cmdargs <> "" ->
  plain_name (outdir cmdargs) ->
  checks_pass load_celeba_attrs load_celeba_partition cmdargs fs split ->
  1 <= workers cmdargs ->
  (forall k files f,
      In (k, files) split -> In f files ->
      (exists data,
          fs !! copy_src (path_celeba cmdargs) f = Some (File data))
      /\ fs !! copy_dst (outdir cmdargs) k f = None) ->
  (forall p, In p (bucket_paths (outdir cmdargs) split) -> fs !! p = None) ->
  exists fs' : FS,
    main load_celeba_attrs load_celeba_partition cmdargs fs = (Ok tt, fs')
    /\ fs' !! outdir cmdargs = Some Dir
    /\ (forall p, In p (bucket_paths (outdir cmdargs) split) ->
                  fs' !! p = Some Dir)
    /\ (forall k files f,
          In (k, files) split -> In f files ->
          fs' !! copy_dst (outdir cmdargs) k f
          = fs !! copy_src (path_celeba cmdargs) f)
    /\ (forall q,
          q <> outdir cmdargs ->
          ~ In q (bucket_paths (outdir cmdargs) split) ->
          (forall k files f, In (k, files) split -> In f files ->
                             q <> copy_dst (outdir cmdargs) k f) ->
          fs' !! q = fs !! q).
Proof. intros _ _ _. apply main_copies. Qed.

Lemma main_copies_every_image_witness :
  exists fs' : FS,
    main Sample.read_attrs Sample.read_partition (Sample.args "Male")
         Sample.fs_celeba = (Ok tt, fs')
    /\ fs' !! "out/testB/000002.png" = Some (File "image 2").
Proof.
  set (split := [ ("trainA", ["000001.jpg"]); ("trainB", []);
                  ("testA", ["000003.jpg"]); ("testB", ["000002.jpg"]) ]).
  assert (checks_pass Sample.read_attrs Sample.read_partition
            (Sample.args "Male") Sample.fs_celeba split) as Hpass.
  { split; [reflexivity|].
    eexists _, _. repeat split; vm_compute; reflexivity. }
  assert (Sample.read_partition Sample.fs_celeba
            (path_part (Sample.args "Male")) <> Ok []) as Hlines
    by discriminate.
  assert (path_celeba (Sample.args "Male") <> "") as Hsrc by discriminate.
  destruct (main_copies_every_image
              Sample.read_attrs Sample.read_partition (Sample.args "Male")
              Sample.fs_celeba split Hlines Hsrc plain_name_out Hpass)
    as (fs' & Hrun & _ & _ & Hcopied & _).
  - simpl. lia.
  - intros k files f Hb Hf. simpl in Hb.
    destruct Hb as [[= <- <-]|[[= <- <-]|[[= <- <-]|[[= <- <-]|[]]]]];
      simpl in Hf; try (destruct Hf as [<-|[]]); try destruct Hf;
      (split; [eexists|]; vm_compute; reflexivity).
  - intros p Hp. simpl in Hp.
    destruct Hp as [<-|[<-|[<-|[<-|[]]]]]; reflexivity.
  - exists fs'. split; [exact Hrun|].
    change "out/testB/000002.png"
      with (copy_dst (outdir (Sample.args "Male")) "testB" "000002.jpg").
    rewrite (Hcopied "testB" ["000002.jpg"] "000002.jpg");
      [vm_compute; reflexivity|simpl; tauto|now left].
Defined.

(** ** Joining aligned tables *)

Section JoinAligned.

Variable other : AttrFrame.

Lemma join_row_aligned pr :
  List.NoDup (map fst (attr_rows other)) ->
  In (fst pr) (map fst (attr_rows other)) ->
  exists cells,
    In (fst pr, cells) (attr_rows other)
    /\ join_row other pr = [ mkRow (fst pr) (snd pr) cells ].
Proof.
  intros Hnd Hin. apply in_map_iff in Hin as ([label cells] & Hlabel & Har).
  simpl in Hlabel. subst label.
  pose proof (unique_label_matches (fst pr) _ Hnd) as Hle.
  assert (In (fst pr, cells)
             (List.filter (label_matches (fst pr)) (attr_rows other))) as Hm.
  { apply filter_In. split; [exact Har|apply String.eqb_refl]. }
  unfold join_row.
  destruct (List.filter _ _) as [|m [|m' ms]]; simpl in *; [tauto| |lia].
  destruct Hm as [->|[]]. exists cells. split; [exact Har|reflexivity].
Qed.

Lemma join_rows_aligned (dfp : PartitionFrame) :
  List.NoDup (map fst (attr_rows other)) ->
  (forall label, In label (map fst dfp) ->
                 In label (map fst (attr_rows other))) ->
  map part (flat_map (join_row other) dfp) = map snd dfp
  /\ forall r, In r (flat_map (join_row other) dfp) ->
               In (stem r, attrs r) (attr_rows other).
Proof.
  intros Hnd. induction dfp as [|pr dfp IH]; intros Hall.
  - split; [reflexivity|]. intros r [].
  - destruct IH as [IHpart IHrows].
    { intros label Hl. apply Hall. now right. }
    destruct (join_row_aligned pr Hnd) as (cells & Hcells & Hrow).
    { apply Hall. now left. }
    cbn [flat_map]. rewrite Hrow. split.
    + simpl. now rewrite IHpart.
    + intros r [<-|Hr]; [exact Hcells|now apply IHrows].
Qed.

End JoinAligned.

Lemma join_aligned (df_partition : PartitionFrame)
    (df_attrs : AttrFrame) :
  (In PART_COL (attr_names df_attrs) ->
   join df_partition df_attrs = Err (ColumnsOverlap PART_COL))
  /\ (~ In PART_COL (attr_names df_attrs) ->
      List.NoDup (map fst (attr_rows df_attrs)) ->
      (forall label, In label (map fst df_partition) ->
                     In label (map fst (attr_rows df_attrs))) ->
      exists specs,
        join df_partition df_attrs = Ok specs
        /\ columns specs = PART_COL :: attr_names df_attrs
        /\ index specs = map fst df_partition
        /\ map part (rows specs) = map snd df_partition
        /\ (forall r, In r (rows specs) ->
                      In (stem r, attrs r) (attr_rows df_attrs))
        /\ (List.NoDup (map fst df_partition) ->
            (forall label, In label (map fst (attr_rows df_attrs)) ->
                           In label (map fst df_partition)) ->
            len specs = length df_partition
            /\ len specs = length (attr_rows df_attrs))).
Proof.
  split.
  - intros Hin. unfold join.
    destruct (existsb _ _) eqn:E; [reflexivity|].
    assert (existsb (String.eqb PART_COL) (attr_names df_attrs) = true)
      as Hex; [|congruence].
    apply existsb_exists. exists PART_COL.
    split; [exact Hin|apply String.eqb_refl].
  - intros Hfree Hnd Hall.
    exists (mkFrame (attr_names df_attrs)
                    (flat_map (join_row df_attrs) df_partition)).
    destruct (join_rows_aligned df_attrs df_partition Hnd Hall)
      as [Hpart Hrows].
    assert (index (mkFrame (attr_names df_attrs)
                     (flat_map (join_row df_attrs) df_partition))
            = map fst df_partition) as Hindex.
    { unfold index. cbn [rows]. now apply join_rows_index. }
    split; [|split; [reflexivity|split; [exact Hindex|split;
                                         [exact Hpart|split; [exact Hrows|]]]]].
    + unfold join. destruct (existsb _ _) eqn:E; [|reflexivity].
      apply existsb_exists in E as (c & Hin & Hc).
      apply String.eqb_eq in Hc. subst c. contradiction.
    + intros Hndp Hback.
      assert (len (mkFrame (attr_names df_attrs)
                     (flat_map (join_row df_attrs) df_partition))
              = length df_partition) as Hlen.
      { unfold len. rewrite <- (List.length_map stem).
        fold (index (mkFrame (attr_names df_attrs)
                       (flat_map (join_row df_attrs) df_partition))).
        rewrite Hindex. apply List.length_map. }
      split; [exact Hlen|]. rewrite Hlen.
      rewrite <- (List.length_map fst df_partition).
      rewrite <- (List.length_map fst (attr_rows df_attrs)).
      apply Permutation_length.
      apply Permutation.NoDup_Permutation; try assumption.
      intros label. split; [apply Hall|apply Hback].
Qed.

(** X15. [load_celeba_specs] on a partition list of at least one line:
    the join is refused when the attribute list has a column named
    [partition].  Otherwise, when the attribute labels are distinct and
    every partition label has an attribute row, the loaded table has
    the column [partition] before the attribute columns, the partition
    list's labels and codes, row for row, each with the cells of its
    attribute row and no NaN of the join's making; and when the two
    label sets are the same and the partition labels are distinct too,
    it has as many rows as either list.  The file system is as before. *)
Theorem load_celeba_specs_aligned
    (load_celeba_attrs : FS -> string -> res AttrFrame)
    (load_celeba_partition : FS -> string -> res PartitionFrame)
    (fs : FS) (path_attr path_part : string)
    (df_partition : PartitionFrame) (df_attrs : AttrFrame) :
  load_celeba_partition fs path_part = Ok df_partition ->
  load_celeba_attrs fs path_attr = Ok df_attrs ->
  df_partition <> [] ->
  (In PART_COL (attr_names df_attrs) ->
   load_celeba_specs load_celeba_attrs load_celeba_partition
                     path_attr path_part fs
   = (Err (ColumnsOverlap PART_COL), fs))
  /\ (~ In PART_COL (attr_names df_attrs) ->
      List.NoDup (map fst (attr_rows df_attrs)) ->
      (forall label, In label (map fst df_partition) ->
                     In label (map fst (attr_rows df_attrs))) ->
      exists specs,
        load_celeba_specs load_celeba_attrs load_celeba_partition
                          path_attr path_part fs = (Ok specs, fs)
        /\ columns specs = PART_COL :: attr_names df_attrs
        /\ index specs = map fst df_partition
        /\ map part (rows specs) = map snd df_partition
        /\ (forall r, In r (rows specs) ->
                      In (stem r, attrs r) (attr_rows df_attrs))
        /\ (List.NoDup (map fst df_partition) ->
            (forall label, In label (map fst (attr_rows df_attrs)) ->
                           In label (map fst df_partition)) ->
            len specs = length df_partition
            /\ len specs = length (attr_rows df_attrs))).
Proof.
  intros Hpart Hattrs _.
  destruct (join_aligned df_partition df_attrs) as [Hclash Haligned].
  unfold load_celeba_specs. rewrite Hpart, Hattrs. cbn [res_bind].
  split.
  - intros Hin. now rewrite (Hclash Hin).
  - intros Hfree Hnd Hall.
    destruct (Haligned Hfree Hnd Hall) as (specs & Hjoin & Hrest).
    exists specs. split; [now rewrite Hjoin|exact Hrest].
Qed.

Lemma load_celeba_specs_aligned_witness :
  exists specs,
    load_celeba_specs Sample.read_attrs Sample.read_partition
      "list_attr_celeba.txt" "list_eval_partition.txt" Sample.fs_celeba
    = (Ok specs, Sample.fs_celeba)
    /\ columns specs = [ "partition"; "Male" ]
    /\ index specs = [ "000001.jpg"; "000002.jpg"; "000003.jpg" ]
    /\ len specs = 3%nat.
Proof.
  destruct (load_celeba_specs_aligned
              Sample.read_attrs Sample.read_partition Sample.fs_celeba
              "list_attr_celeba.txt" "list_eval_partition.txt"
              [ ("000001.jpg", 0); ("000002.jpg", 1); ("000003.jpg", 2) ]
              (mkAttrs ["Male"]
                 [ ("000001.jpg", [Some 1]); ("000002.jpg", [Some (-1)]);
                   ("000003.jpg", [Some 1]) ])
              eq_refl eq_refl)
    as [_ Haligned]; [discriminate|].
  destruct Haligned as (specs & Hload & Hcols & Hindex & _ & _ & Hlen).
  - simpl. intros [E|[]]. discriminate E.
  - simpl. repeat constructor; simpl; intros H;
      repeat destruct H as [H|H]; try discriminate H; exact H.
  - intros label Hl. exact Hl.
  - exists specs. split; [exact Hload|]. split; [exact Hcols|].
    split; [exact Hindex|].
    apply Hlen.
    + simpl. repeat constructor; simpl; intros H;
        repeat destruct H as [H|H]; try discriminate H; exact H.
    + intros label Hl. exact Hl.
Defined.

(** ** Sample evaluations *)

Example splitext_png : Path.splitext "000001.png" = ("000001", ".png").
Proof. reflexivity. Qed.
Example splitext_hidden : Path.splitext ".png" = (".png", "").
Proof. reflexivity. Qed.
Example splitext_dir : Path.splitext "a.b/c" = ("a.b/c", "").
Proof. reflexivity. Qed.
Example splitext_two : Path.splitext "x.tar.png" = ("x.tar", ".png").
Proof. reflexivity. Qed.
Example join_plain : Path.join "out" "trainA" = "out/trainA".
Proof. reflexivity. Qed.
Example join_slash : Path.join "out/" "trainA" = "out/trainA".
Proof. reflexivity. Qed.
Example join_abs : Path.join "out" "/abs" = "/abs".
Proof. reflexivity. Qed.
Example basename_ex : Path.basename "a/b/c.png" = "c.png".
Proof. reflexivity. Qed.

Example listing_is_sorted :
  collect_celeba_images "img" Sample.fs_celeba
  = (Ok ["000001.png"; "000002.png"; "000003.png"], Sample.fs_celeba).
Proof. vm_compute. reflexivity. Qed.

Example sample_run_output :
  map fst (map_to_list
             (snd (main Sample.read_attrs Sample.read_partition
                     (Sample.args "Male") Sample.fs_celeba)))
  ≡ₚ [ "img"; "img/000001.png"; "img/000002.png"; "img/000003.png";
       "out"; "out/trainA"; "out/trainB"; "out/testA"; "out/testB";
       "out/trainA/000001.png"; "out/testB/000002.png";
       "out/testA/000003.png" ].
Proof. vm_compute. solve_Permutation. Qed.
